(** * OpenDoge server: the event dispatch engine

    A shallow embedding of [opendogeserver/server.py] (the [Server] class:
    [register], [handle_event], [serve]) and of [opendogeserver/auth.py]
    (the [AccountHandler]: [create_traveller], [check_account], [gen_id],
    [get_users]), with the properties of the dispatch engine proved over it.

    Conventions of the embedding:
    - a Python [str] is a [string]; its characters are code points below 256;
    - a Python [dict] used for its order ([events], the decoded message, the
      keyword arguments of a call) is an insertion-ordered association list,
      see [dict]; the two tables keyed by the connection address
      ([ip_requests], [wss_accounts]) are [gmap]s;
    - an exception is an explicit result; [exit()] is the [SystemExit]
      outcome, which nothing in the server catches;
    - [random], [uuid4], [bcrypt], [email_validator] and [pymongo] are
      collaborators: the first four are fields of [Environment] or draws from
      an explicit [Rng]; the collection [mdb.users] is a list of documents. *)

From stdpp Require Import gmap strings list fin_maps.
From Stdlib Require Import ZArith Ascii.

Open Scope string_scope.
Open Scope Z_scope.

(** ** Python values *)

(** The connection object handed to [serve]; the server only ever reads
    [wss.remote_address[0]]. *)
Record WebSocket := { remote_address : string * Z }.

Definition ip (wss : WebSocket) : string := fst (remote_address wss).

(** The values that travel through a message, a call and a reply. *)
#[warnings="-register-all"]
Inductive value :=
| VNone
| VBool (b : bool)
| VInt (n : Z)
| VStr (s : string)
| VList (l : list value)
| VWss (w : WebSocket).

(** ** Insertion-ordered dictionaries *)

(** A Python [dict]: keys in the order of their first insertion, each key
    once (see [dict_set_NoDup]). *)
Definition dict (V : Type) := list (string * V).

Section Dict.
Context {V : Type}.

(** [d[k]], [None] standing for [KeyError]. *)
Fixpoint dict_get (k : string) (d : dict V) : option V :=
  match d with
  | [] => None
  | (k', v) :: d' => if decide (k = k') then Some v else dict_get k d'
  end.

(** [k in d] *)
Definition dict_in (k : string) (d : dict V) : bool :=
  match dict_get k d with Some _ => true | None => false end.

(** [d[k] = v]: overwrites in place, or appends a new key. *)
Fixpoint dict_set (k : string) (v : V) (d : dict V) : dict V :=
  match d with
  | [] => [(k, v)]
  | (k', v') :: d' =>
      if decide (k = k') then (k, v) :: d' else (k', v') :: dict_set k v d'
  end.

(** [del d[k]] for a key that is present. *)
Fixpoint dict_del (k : string) (d : dict V) : dict V :=
  match d with
  | [] => []
  | (k', v') :: d' =>
      if decide (k = k') then d' else (k', v') :: dict_del k d'
  end.

(** [list(d.keys())] *)
Definition dict_keys (d : dict V) : list string := d.*1.

(** The dictionary built from a sequence of pairs, as [dict(pairs)] and the
    JSON decoder do: a later pair overwrites an earlier one with its key. *)
Definition dict_of (kvs : list (string * V)) : dict V :=
  fold_left (fun d kv => dict_set kv.1 kv.2 d) kvs [].
End Dict.

(** ** What the server imports *)

(** [server.py] and [auth.py] import the constants of
    [opendogeserver.constants] and the helpers of [opendogeserver.utilities],
    whose code is not part of the verified files, and the third-party
    [email_validator], [bcrypt] and [uuid].  The model takes them as an
    interface, and every general theorem below holds for each implementation
    of it. *)
Class Environment := {
  (** constants.IS_LOCAL: the in-memory/dev mode switch *)
  IS_LOCAL : bool;
  (** constants.IP_RATELIMIT_MAX: the rate-limit threshold *)
  IP_RATELIMIT_MAX : Z;
  (** utilities.to_camel_case(text) *)
  to_camel_case : string -> string;
  (** utilities.to_snake_case(text, flag) *)
  to_snake_case : string -> bool -> string;
  (** the wording of the text by which [check_loop_data] names the
      parameters that are missing *)
  missing_text : list string -> string;
  (** the formatter's naming convention for the [event] field of an error
      reply, from the event, the error kind and the fifth positional flag *)
  error_event : string -> string -> bool -> string;
  (** email_validator.validate_email: [Some msg] is [EmailNotValidError(msg)] *)
  validate_email : string -> option string;
  (** bcrypt.gensalt(rounds=13), as a function of the random draw *)
  gensalt : nat -> string;
  (** bcrypt.hashpw(password, salt); [None] is the [ValueError] that bcrypt
      raises on a password it refuses (a NUL byte, or more bytes than it
      takes, depending on its version) *)
  hashpw : string -> string -> option string;
  (** str(uuid4()), as a function of the random draw *)
  uuid4 : nat -> string
}.

(** ** Reply envelopes *)

(** The outbound envelope, before it is serialised.  [env_error] and
    [env_message] are absent on a success reply. *)
Record envelope := {
  env_event : string;
  env_originalEvent : string;
  env_error : option string;
  env_message : option value;
  env_ref : value;
  env_extra : dict value
}.

(** The sentinel a reply carries when no ref reaches the formatter. *)
Definition NO_REF : value := VBool false.

(** Modelled from the spec: the code of [utilities.format_res], called as
    [format_res(event, ref, **payload)], is missing.  Per the spec's
    Outbound Envelope, a success reply is
    [{event, originalEvent, ref, ...payload}] with [event] equal to
    [originalEvent], and the ref is echoed verbatim. *)
Definition format_res (event : string) (ref : value) (payload : dict value)
  : envelope :=
  {| env_event := event;
     env_originalEvent := event;
     env_error := None;
     env_message := None;
     env_ref := ref;
     env_extra := payload |}.

(** Modelled from the spec: the code of [utilities.format_res_err] is
    missing.  Its positional parameters are read off the call sites, which
    agree on [(event, error kind, message, ref, flag)] followed by keyword
    extras; per the spec's Outbound Envelope an error reply is
    [{event, error, message, ref, ...extra}], the ref is echoed verbatim, and
    a call that passes no ref ([ref = None] here) yields the false/absent
    sentinel. *)
Definition format_res_err `{Environment} (event error : string) (message : value)
    (ref : option value) (flag : bool) (extra : dict value) : envelope :=
  {| env_event := error_event event error flag;
     env_originalEvent := event;
     env_error := Some error;
     env_message := Some message;
     env_ref := default NO_REF ref;
     env_extra := extra |}.

(** Modelled from the spec: the declared parameters that the bound
    arguments do not provide, which the missing [utilities.check_loop_data]
    looks for (the spec's Argument Binder, step 4). *)
Definition missing_args (args : dict value) (target_args : list string)
  : list string :=
  filter (fun p => dict_in p args = false) target_args.

(** Modelled from the spec: the code of
    [utilities.check_loop_data(args, target_args)] is missing.  Per the
    spec's Argument Binder, step 4, it reports the declared parameters that
    are missing: nothing when there is none, else a text naming them.  It is
    handed the names of the parameters only, so none is optional to it. *)
Definition check_loop_data `{Environment} (args : dict value)
    (target_args : list string) : option string :=
  match missing_args args target_args with
  | [] => None
  | missing => Some (missing_text missing)
  end.

(** ** The persistence collaborator *)

(** A stored value and a document of the collection [mdb.users]. *)
#[warnings="-register-all"]
Inductive bson :=
| BStr (s : string)
| BBytes (b : string)
| BObjectId (n : nat)
| BDoc (fields : list (string * bson)).

Definition document := dict bson.

(** The database behind [Server.mdb]: whether the deployment answers, and the
    documents of its [users] collection. *)
Record Database := { reachable : bool; users : list document }.

(** What a caller hands to [insert_one]: a mapping, or some other object;
    [{a, b}] in Python is a set display. *)
Inductive pyobject :=
| PyDict (d : document)
| PySet (elems : list value).

(** [mdb.users.insert_one(obj)], [None] standing for a raised exception:
    [mdb] is [None] ([AttributeError]), the argument is not a mapping
    (pymongo's [TypeError], raised before anything is sent), or the
    deployment does not answer.  The stored document gets its [_id]. *)
Definition insert_one (obj : pyobject) (mdb : option Database)
  : option (option Database) :=
  match mdb with
  | None => None
  | Some db =>
      match obj with
      | PySet _ => None
      | PyDict d =>
          if reachable db then
            Some (Some {| reachable := true;
                          users := users db ++
                            [dict_set "_id" (BObjectId (length (users db))) d] |})
          else None
      end
  end.

(** [mdb.users.find({})], [None] standing for a raised exception. *)
Definition find_all (mdb : option Database) : option (list document) :=
  match mdb with
  | Some db => if reachable db then Some (users db) else None
  | None => None
  end.

(** ** Randomness *)

(** The process's source of random draws: an arbitrary sequence, and how far
    it has been consumed. *)
Record Rng := { tape : nat -> nat; cursor : nat }.

Definition draw (r : Rng) : nat * Rng :=
  (tape r (cursor r), {| tape := tape r; cursor := S (cursor r) |}).

(** ** Handlers and the server *)

(** [classes.Traveller] *)
Record Traveller := {
  traveller_id : string;
  traveller_name : string;
  traveller_email : string;
  traveller_password : string
}.

(** The state a handler can reach: the fields [mdb] and [wss_accounts] of the
    server, the [travellers] table that [AccountHandler.__init__] creates in
    local mode, and the random source.  (A handler descriptor cannot mention
    the [Server] record that contains it, so these fields are grouped.) *)
Record Backend := {
  mdb : option Database;
  wss_accounts : gmap string string;
  travellers : dict Traveller;
  rng : Rng
}.

(** How the body of a handler ends: it returns its reply (a falsy return is
    [None]) or raises an [Exception] [e], kept as [str(e)]. *)
Inductive outcome :=
| Returned (reply : option envelope)
| Raised (e : string).

(** A registered callback: its [__name__], [getfullargspec(callback).args],
    and its body as a function of the keyword arguments and the state. *)
Record handler := {
  h_name : string;
  h_args : list string;
  h_body : dict value -> Backend -> Backend * outcome
}.

(** The [Server] dataclass. *)
Record Server := {
  events : dict handler;
  total_requests : Z;
  ip_requests : gmap string Z;
  backend : Backend
}.

Definition set_backend (b : Backend) (s : Server) : Server :=
  {| events := events s; total_requests := total_requests s;
     ip_requests := ip_requests s; backend := b |}.

Definition set_wss_accounts (a : gmap string string) (b : Backend) : Backend :=
  {| mdb := mdb b; wss_accounts := a; travellers := travellers b; rng := rng b |}.

(** How a call of [handle_event] ends: it returns (nothing, or a reply), or
    [exit()] raises [SystemExit] through it. *)
Inductive completion :=
| Return (result : option envelope)
| SystemExit.

(** What one call of [handle_event] did: the state it left, the keyword
    arguments with which it called the target (if it called it), and how it
    ended. *)
Record handled := {
  after : Backend;
  called : option (dict value);
  ended : completion
}.

(** Lines 76-77: the message once [handle_event] has given it a [ref]. *)
Definition with_ref (data : dict string) : dict value :=
  let data : dict value := prod_map id VStr <$> data in
  if dict_in "ref" data then data else dict_set "ref" (VBool false) data.

(** The ref of a message as its replies should carry it: the token of the
    message, or the false sentinel when it has none. *)
Definition ref_of (data : dict string) : value :=
  match dict_get "ref" data with
  | Some token => VStr token
  | None => VBool false
  end.

Section Server.
Context `{Environment}.

(** [Server.register] *)
Definition register (callback : handler) (s : Server) : Server :=
  let event := to_camel_case (h_name callback) in
  if dict_in event (events s) then s
  else {| events := dict_set event callback (events s);
          total_requests := total_requests s;
          ip_requests := ip_requests s;
          backend := backend s |}.

(** The loop of lines 85-91: the arguments taken from the message. *)
Definition bind_field (target_args : list string) (args : dict value)
    (item : string * value) : dict value :=
  let arg := item.1 in
  let arg_to_add := to_snake_case arg true in
  if bool_decide (arg_to_add ∈ target_args) then
    let arg_to_add := if bool_decide (arg = "event") then arg else arg_to_add in
    dict_set arg_to_add item.2 args
  else args.

(** The parameter that a field of the message provides, if any: the name
    under which the loop above stores its value. *)
Definition bound_name (target_args : list string) (arg : string)
  : option string :=
  let arg_to_add := to_snake_case arg true in
  if bool_decide (arg_to_add ∈ target_args) then
    Some (if bool_decide (arg = "event") then arg else arg_to_add)
  else None.

Definition bind_fields (target_args : list string) (data : dict value)
  : dict value :=
  fold_left (bind_field target_args) data [].

(** Lines 82-98: the keyword arguments of the call. *)
Definition bind_args (wss : WebSocket) (target_args : list string)
    (data : dict value) (ref : value) : dict value :=
  let args := bind_fields target_args data in
  let args :=
    if bool_decide ("wss" ∈ target_args) then dict_set "wss" (VWss wss) args
    else args in
  if bool_decide ("ref" ∈ target_args) then dict_set "ref" ref args else args.

(** The keyword call [target( **args )]: Python refuses a keyword that the
    target does not declare, and a call that leaves a parameter without its
    argument, with a [TypeError]; else the body runs. *)
Definition call (target : handler) (args : dict value) (b : Backend)
  : Backend * outcome :=
  if bool_decide (dict_keys args ⊆ h_args target)
     && bool_decide (h_args target ⊆ dict_keys args)
  then h_body target args b
  else (b, Raised "TypeError").

(** Lines 122-129: the listing of the registered events. *)
Fixpoint events_listing (events_response : string)
    (possible_events : list string) : string :=
  match possible_events with
  | [] => events_response
  | ev :: rest =>
      events_listing
        (match rest with
         | _ :: _ => events_response ++ ev ++ "|"
         | [] => events_response ++ ev
         end) rest
  end.

(** Lines 108-117: the bug report of the production server. *)
Definition report_bug (e : string) (b : Backend) : option Backend :=
  let (n, r) := draw (rng b) in
  match insert_one (PySet [VStr ("bug" ++ uuid4 n); VStr e]) (mdb b) with
  | Some mdb' =>
      Some {| mdb := mdb'; wss_accounts := wss_accounts b;
              travellers := travellers b; rng := r |}
  | None => None
  end.

(** [Server.handle_event].  [data] is the decoded message, which [serve]
    has checked to be a dictionary of strings. *)
Definition handle_event (wss : WebSocket) (data : dict string) (s : Server)
  : handled :=
  let b := backend s in
  match dict_get "event" data with
  | None => {| after := b; called := None; ended := Return None |}
  | Some event =>
      if bool_decide (0 < Z.of_nat (String.length event)) then
        let data := with_ref data in
        let ref := default VNone (dict_get "ref" data) in
        match dict_get event (events s) with
        | Some target =>
            let target_args := h_args target in
            let args := bind_args wss target_args data ref in
            match check_loop_data args target_args with
            | Some args_errored =>
                {| after := b; called := None;
                   ended := Return (Some
                     (format_res_err event "FormatError" ref
                        (Some (VStr args_errored)) true [])) |}
            | None =>
                match call target args b with
                | (b', Returned reply) =>
                    {| after := b'; called := Some args;
                       ended := Return reply |}
                | (b', Raised e) =>
                    let reply :=
                      format_res_err event "EventUnknownError"
                        (VStr "Unknown internal server error.")
                        (Some ref) true [] in
                    if IS_LOCAL then
                      {| after := b'; called := Some args;
                         ended := Return (Some reply) |}
                    else
                      match report_bug e b' with
                      | Some b'' =>
                          {| after := b''; called := Some args;
                             ended := Return (Some reply) |}
                      | None =>
                          {| after := b'; called := Some args;
                             ended := SystemExit |}
                      end
                end
            end
        | None =>
            let possible_events := dict_keys (events s) in
            let events_response := events_listing "" possible_events in
            {| after := b; called := None;
               ended := Return (Some
                 (format_res_err event "EventNotFound"
                    (VStr "This event doesn't exist.") (Some ref) true
                    [("possibleEvents", VStr events_response)])) |}
        end
      else {| after := b; called := None; ended := Return None |}
  end.
End Server.

(** ** The receive loop *)

(** A decoded JSON text (a number is kept as an integer: the server only
    tells strings from everything else). *)
#[warnings="-register-all"]
Inductive json :=
| JNull
| JBool (b : bool)
| JNumber (n : Z)
| JString (s : string)
| JArray (items : list json)
| JObject (members : list (string * json)).

(** A frame as [json.loads] sees it: the JSON text it holds, or text on which
    the decoder raises [JSONDecodeError]. *)
Inductive frame :=
| Json (j : json)
| NotJson (text : string).

Definition loads (response : frame) : option json :=
  match response with
  | Json j => Some j
  | NotJson _ => None
  end.

(** [isinstance(item, str)], with the string when it holds. *)
Definition as_str (item : json) : option string :=
  match item with
  | JString s => Some s
  | _ => None
  end.

(** Lines 162-170: the decoded value must be a dictionary (the decoder keeps
    the last member of a repeated key) whose items are all strings;
    [None] stands for the [AssertionError]. *)
Definition checked (data : json) : option (dict string) :=
  match data with
  | JObject members =>
      mapM (fun kv : string * json => pair kv.1 <$> as_str kv.2) (dict_of members)
  | _ => None
  end.

(** The frame is a JSON object whose members, as the decoder keeps them, are
    the strings of [data]. *)
Definition string_object (response : frame) (data : dict string) : Prop :=
  exists members : list (string * json),
    response = Json (JObject members)
    /\ dict_of members = prod_map id JString <$> data.

(** What the loop does that a client or the dispatcher can observe. *)
Inductive action :=
| Dispatch (data : dict string)
| Send (result : envelope).

(** Where the coroutine [serve] stands: back at [wss.recv()], returned after
    [ConnectionClosed], left by [SystemExit], or left by an exception that
    [serve] does not catch. *)
Inductive status :=
| Receiving
| Disconnected
| Exited
| Uncaught (e : string).

(** What [wss.recv()] yields. *)
Inductive received :=
| Recv (response : frame)
| ConnectionClosed (code : Z).

Definition set_ip_requests (r : gmap string Z) (s : Server) : Server :=
  {| events := events s; total_requests := total_requests s;
     ip_requests := r; backend := backend s |}.

Definition incr_total_requests (s : Server) : Server :=
  {| events := events s; total_requests := total_requests s + 1;
     ip_requests := ip_requests s; backend := backend s |}.

Section Serve.
Context `{Environment}.

(** Lines 143-145: on connect. *)
Definition connect (wss : WebSocket) (s : Server) : Server :=
  match ip_requests s !! ip wss with
  | Some _ => s
  | None => set_ip_requests (<[ip wss := 0]> (ip_requests s)) s
  end.

(** Lines 149-193: one turn of the loop on a received frame ([wss.send] is
    taken to succeed).  The counter is tested before it is incremented. *)
Definition on_frame (wss : WebSocket) (response : frame) (s : Server)
  : Server * list action * status :=
  match ip_requests s !! ip wss with
  | None => (s, [], Uncaught "KeyError")
  | Some n =>
      if bool_decide (IP_RATELIMIT_MAX < n) then (s, [], Receiving)
      else
        let s := set_ip_requests (<[ip wss := n + 1]> (ip_requests s)) s in
        match loads response with
        | None => (s, [], Receiving)
        | Some data =>
            match checked data with
            | None => (s, [], Receiving)
            | Some data =>
                let r := handle_event wss data s in
                let s := set_backend (after r) s in
                match ended r with
                | SystemExit => (s, [Dispatch data], Exited)
                | Return None => (s, [Dispatch data], Receiving)
                | Return (Some result) =>
                    (incr_total_requests s,
                     [Dispatch data; Send result], Receiving)
                end
            end
        end
  end.

(** Lines 195-205: on [ConnectionClosed]. *)
Definition on_closed (wss : WebSocket) (s : Server) : Server :=
  match wss_accounts (backend s) !! ip wss with
  | Some _ =>
      if negb IS_LOCAL then
        set_backend
          (set_wss_accounts (delete (ip wss) (wss_accounts (backend s)))
             (backend s)) s
      else s
  | None => s
  end.

(** The [while True] loop over what [wss.recv()] yields in turn; an
    exhausted list leaves the coroutine waiting in [recv]. *)
Fixpoint serve_loop (wss : WebSocket) (inputs : list received) (s : Server)
  : Server * list action * status :=
  match inputs with
  | [] => (s, [], Receiving)
  | ConnectionClosed _ :: _ => (on_closed wss s, [], Disconnected)
  | Recv response :: rest =>
      match on_frame wss response s with
      | (s', acts, Receiving) =>
          let '(s'', acts', st) := serve_loop wss rest s' in
          (s'', (acts ++ acts')%list, st)
      | stopped => stopped
      end
  end.

(** [Server.serve] *)
Definition serve (wss : WebSocket) (inputs : list received) (s : Server)
  : Server * list action * status :=
  serve_loop wss inputs (connect wss s).
End Serve.

(** The replies sent and the number of calls of the dispatcher in a run. *)
Definition sent (acts : list action) : list envelope :=
  omap (fun a => match a with Send r => Some r | Dispatch _ => None end) acts.

Definition dispatched (acts : list action) : list (dict string) :=
  omap (fun a => match a with Dispatch d => Some d | Send _ => None end) acts.

(** ** The account handler ([auth.py]) *)

Definition MIN_ACCOUNT_NAME : nat := 3.
Definition MAX_ACCOUNT_NAME : nat := 20.
Definition MIN_PASS_LENGTH : nat := 8.
Definition MAX_PASS_LENGTH : nat := 20.

(** [str.isspace] on one character, for code points below 256. *)
Definition isspace (c : ascii) : bool :=
  let n := nat_of_ascii c in
  ((9 <=? n) && (n <=? 13) || (28 <=? n) && (n <=? 32)
   || (n =? 133) || (n =? 160))%nat.

Fixpoint lstrip (s : string) : string :=
  match s with
  | String c s' => if isspace c then lstrip s' else s
  | EmptyString => EmptyString
  end.

(** [str.strip()] *)
Definition strip (s : string) : string :=
  String.rev (lstrip (String.rev (lstrip s))).

(** [bytes(s, encoding='ascii')], [None] standing for [UnicodeEncodeError]. *)
Fixpoint bytes_ascii (s : string) : option string :=
  match s with
  | EmptyString => Some EmptyString
  | String c s' =>
      if (nat_of_ascii c <? 128)%nat then String c <$> bytes_ascii s' else None
  end.

(** [string.ascii_letters] and [string.digits] *)
Definition ascii_letters : string :=
  "abcdefghijklmnopqrstuvwxyzABCDEFGHIJKLMNOPQRSTUVWXYZ".
Definition digits : string := "0123456789".

(** [random.choice(seq)] for a non-empty [seq] *)
Definition choice (seq : string) (r : Rng) : ascii * Rng :=
  let (n, r') := draw r in
  (default "000"%char (String.get (n mod String.length seq)%nat seq), r').

(** [AccountHandler.gen_id]: the loop, [i] turns from the end. *)
Fixpoint gen_id_loop (i : nat) (result_id : string) (r : Rng) : string * Rng :=
  match i with
  | O => (result_id, r)
  | S i' =>
      let (c, r') := choice (ascii_letters ++ digits) r in
      gen_id_loop i' (result_id ++ String c EmptyString) r'
  end.

Definition gen_id (r : Rng) : string * Rng := gen_id_loop 15 "" r.

(** [AccountHandler.check_account] *)
Definition check_account (request_ip : string) (b : Backend) : bool :=
  bool_decide (is_Some (wss_accounts b !! request_ip)).

(** [AccountHandler.get_users]: the loop over the cursor, [None] standing
    for a raised exception. *)
Fixpoint get_users_loop (cursors : list document) (result_users : dict bson)
  : option (dict bson) :=
  match cursors with
  | [] => Some result_users
  | cursor :: rest =>
      if dict_in "_id" cursor then
        match dict_del "_id" cursor with
        | (k, v) :: _ => get_users_loop rest (dict_set k v result_users)
        | [] => None
        end
      else None
  end.

Definition get_users (b : Backend) : option (dict bson) :=
  cursors ← find_all (mdb b); get_users_loop cursors [].

(** Lines 80-83: is the email that of a traveller of the local table? *)
Fixpoint email_taken_local (items : dict Traveller) (email : string) : bool :=
  match items with
  | [] => false
  | (key, item) :: rest =>
      if bool_decide (traveller_email item = email) then true
      else email_taken_local rest email
  end.

(** Lines 85-88: the same over the stored users; an item that is not a
    document with a [travellerEmail] raises. *)
Fixpoint email_taken_users (items : dict bson) (email : string) : option bool :=
  match items with
  | [] => Some false
  | (key, BDoc fields) :: rest =>
      match dict_get "travellerEmail" fields with
      | Some (BStr e) =>
          if bool_decide (e = email) then Some true
          else email_taken_users rest email
      | Some _ => email_taken_users rest email
      | None => None
      end
  | _ => None
  end.

Definition set_rng (r : Rng) (b : Backend) : Backend :=
  {| mdb := mdb b; wss_accounts := wss_accounts b;
     travellers := travellers b; rng := r |}.

Definition in_limits (lo hi : nat) (s : string) : bool :=
  let n := String.length (strip s) in ((lo <=? n) && (n <=? hi))%nat.

Section Auth.
Context `{Environment}.

(** Lines 76-88: is the email that of an existing account?  [None] stands
    for an exception raised on the way. *)
Definition is_email_taken (email : string) (b : Backend) : option bool :=
  if IS_LOCAL then Some (email_taken_local (travellers b) email)
  else users ← get_users b; email_taken_users users email.

(** The closure [create_traveller] of [AccountHandler.__init__].  The
    three message fields arrive as the dispatcher bound them; a value that
    is not a string raises where the body first uses it as one. *)
Definition create_traveller (wss : WebSocket) (event : string) (ref : value)
    (traveller_name traveller_email traveller_password : value) (b : Backend)
  : Backend * outcome :=
  if check_account (ip wss) b then
    (b, Returned (Some (format_res_err event "AlreadyLoggedIn"
       (VStr "You are currently logged in. Logout and try again.")
       (Some ref) false [])))
  else
  match traveller_name with
  | VStr name =>
    if negb (in_limits MIN_ACCOUNT_NAME MAX_ACCOUNT_NAME name) then
      (b, Returned (Some (format_res_err event "NameExceedsLimit"
         (VStr "Traveller name must be between 3 and 20 characters long.")
         (Some ref) false [])))
    else
    match traveller_email with
    | VStr email =>
      match validate_email email with
      | Some e =>
          (b, Returned (Some (format_res_err event "EmailInvalid" (VStr e)
             None false [])))
      | None =>
        match traveller_password with
        | VStr password =>
          if negb (in_limits MIN_PASS_LENGTH MAX_PASS_LENGTH password) then
            (b, Returned (Some (format_res_err event "PasswordExceedsLimit"
               (VStr "Traveller password must be between 8 and 20 characters.")
               (Some ref) false [])))
          else
          match is_email_taken email b with
          | None => (b, Raised "get_users")
          | Some true =>
              (b, Returned (Some (format_res_err event "EmailInUse"
                 (VStr "This email is already in use by another account.")
                 (Some ref) false [])))
          | Some false =>
              let (id, r) := gen_id (rng b) in
              let b := set_rng r b in
              match bytes_ascii password with
              | None => (b, Raised "UnicodeEncodeError")
              | Some pw =>
                  let (n, r) := draw (rng b) in
                  let b := set_rng r b in
                  match hashpw pw (gensalt n) with
                  | None => (b, Raised "ValueError")
                  | Some hashed_password =>
                  let stored :=
                    if IS_LOCAL then
                      Some {| mdb := mdb b; wss_accounts := wss_accounts b;
                              travellers :=
                                dict_set id
                                  {| traveller_id := id;
                                     traveller_name := name;
                                     traveller_email := email;
                                     traveller_password := hashed_password |}
                                  (travellers b);
                              rng := rng b |}
                    else
                      mdb' ← insert_one
                        (PyDict [(id, BDoc
                           [("travellerName", BStr name);
                            ("travellerEmail", BStr email);
                            ("travellerPassword", BBytes hashed_password)])])
                        (mdb b);
                      Some {| mdb := mdb'; wss_accounts := wss_accounts b;
                              travellers := travellers b; rng := rng b |} in
                  match stored with
                  | None => (b, Raised "insert_one")
                  | Some b =>
                      (set_wss_accounts (<[ip wss := id]> (wss_accounts b)) b,
                       Returned (Some (format_res event ref
                         [("travellerId", VStr id)])))
                  end
                  end
              end
          end
        | _ => (b, Raised "AttributeError")
        end
      end
    | _ => (b, Raised "validate_email")
    end
  | _ => (b, Raised "AttributeError")
  end.

(** The three callbacks that [AccountHandler.__init__] registers, as
    descriptors: each body takes its parameters from the keyword arguments
    of the call. *)
Definition total_travellers : handler :=
  {| h_name := "total_travellers";
     h_args := ["wss"; "event"; "ref"];
     h_body := fun args b =>
       (b, Returned (Some (format_res "totalTravellers"
          (default VNone (dict_get "ref" args))
          [("totalTravellers", VInt 0)]))) |}.

Definition fetch_travellers : handler :=
  {| h_name := "fetch_travellers";
     h_args := ["wss"; "event"; "ref"];
     h_body := fun args b =>
       (b, Returned (Some (format_res "fetchTravellers"
          (default VNone (dict_get "ref" args))
          [("travellerIds", VList [])]))) |}.

Definition create_traveller_handler : handler :=
  {| h_name := "create_traveller";
     h_args := ["wss"; "event"; "ref"; "traveller_name"; "traveller_email";
                "traveller_password"];
     h_body := fun args b =>
       match dict_get "wss" args, dict_get "event" args, dict_get "ref" args,
             dict_get "traveller_name" args, dict_get "traveller_email" args,
             dict_get "traveller_password" args with
       | Some (VWss wss), Some (VStr event), Some ref,
         Some name, Some email, Some password =>
           create_traveller wss event ref name email password b
       | _, _, _, _, _, _ => (b, Raised "TypeError")
       end |}.

(** [AccountHandler.__init__]: the registrations, in the order of the
    file. *)
Definition AccountHandler (server : Server) : Server :=
  register create_traveller_handler
    (register fetch_travellers (register total_travellers server)).
End Auth.

(** A server as the dataclass creates it, given the database handle and the
    random source. *)
Definition new_server (db : option Database) (r : Rng) : Server :=
  {| events := []; total_requests := 0; ip_requests := ∅;
     backend := {| mdb := db; wss_accounts := ∅; travellers := []; rng := r |} |}.

(** ** An environment for the worked examples *)

Definition is_upper (c : ascii) : bool :=
  let n := nat_of_ascii c in ((65 <=? n) && (n <=? 90))%nat.
Definition is_lower (c : ascii) : bool :=
  let n := nat_of_ascii c in ((97 <=? n) && (n <=? 122))%nat.
Definition upper (c : ascii) : ascii :=
  if is_lower c then ascii_of_nat (nat_of_ascii c - 32) else c.
Definition lower (c : ascii) : ascii :=
  if is_upper c then ascii_of_nat (nat_of_ascii c + 32) else c.

(** Modelled from the spec: the code of [utilities.to_camel_case] is
    missing.  Per the spec's Event Registry it derives the public event name
    from the handler's name by camel-case normalization: each underscore is
    dropped and the letter after it capitalised. *)
Fixpoint camel_case (capitalise : bool) (text : string) : string :=
  match text with
  | EmptyString => EmptyString
  | String c rest =>
      if bool_decide (c = "_"%char) then camel_case true rest
      else String (if capitalise then upper c else c) (camel_case false rest)
  end.

(** Modelled from the spec: the code of [utilities.to_snake_case] is
    missing.  Per the spec's Argument Binder, step 1, it translates the
    casing of a field to the handlers' parameter-naming convention: each
    capital becomes an underscore and its lower-case letter. *)
Fixpoint snake_case (text : string) : string :=
  match text with
  | EmptyString => EmptyString
  | String c rest =>
      if is_upper c then String "_"%char (String (lower c) (snake_case rest))
      else String c (snake_case rest)
  end.

(** A stand-in for [email_validator]: an address is accepted when an [@]
    separates two non-empty parts. *)
Fixpoint has_at (s : string) : bool :=
  match s with
  | EmptyString => false
  | String c rest =>
      if bool_decide (c = "@"%char) then negb (bool_decide (rest = EmptyString))
      else has_at rest
  end.

Definition sample_validate_email (email : string) : option string :=
  match email with
  | EmptyString => Some "The email address is not valid."
  | String c rest =>
      if bool_decide (c <> "@"%char) && has_at rest then None
      else Some "The email address is not valid."
  end.

(** A stand-in for [bcrypt.hashpw]: it refuses a password that holds a NUL
    byte or more than 72 bytes. *)
Fixpoint has_nul (s : string) : bool :=
  match s with
  | EmptyString => false
  | String c rest => bool_decide (c = "000"%char) || has_nul rest
  end.

Definition sample_hashpw (password salt : string) : option string :=
  if has_nul password || (72 <? String.length password)%nat then None
  else Some (salt ++ password).

(** The environment of the examples: the mode and the threshold are given;
    the helpers are the ones above; the collaborators are stand-ins. *)
Definition sample (local : bool) (ratelimit : Z) : Environment :=
  {| IS_LOCAL := local;
     IP_RATELIMIT_MAX := ratelimit;
     to_camel_case := camel_case false;
     to_snake_case := fun text _ => snake_case text;
     missing_text := fun missing => String.concat ", " missing;
     error_event := fun event error flag =>
       if flag then error else event ++ error;
     validate_email := sample_validate_email;
     gensalt := fun n => "$2b$13$";
     hashpw := sample_hashpw;
     uuid4 := fun n => "00000000-0000-4000-8000-000000000000" |}.

(** ** Worked examples: two clients, their frames and two servers *)

Definition is_digit (c : ascii) : bool :=
  let n := nat_of_ascii c in ((48 <=? n) && (n <=? 57))%nat.

(** [str.isalnum] on one ASCII character, and a test on every character. *)
Definition isalnum (c : ascii) : bool := is_upper c || is_lower c || is_digit c.

Fixpoint string_forallb (P : ascii -> bool) (s : string) : bool :=
  match s with
  | EmptyString => true
  | String c rest => P c && string_forallb P rest
  end.

Definition client : WebSocket := {| remote_address := ("10.0.0.1", 5000) |}.
Definition other_client : WebSocket := {| remote_address := ("10.0.0.2", 5001) |}.

Definition dice : Rng := {| tape := fun n => (7 * n + 3)%nat; cursor := 0 |}.

Definition empty_db : option Database :=
  Some {| reachable := true; users := [] |}.

Definition local_env : Environment := sample true 100.
Definition production_env : Environment := sample false 100.

(** The servers as the process sets them up: a fresh [Server], on which
    [AccountHandler] registers its callbacks. *)
Definition local_server : Server :=
  @AccountHandler local_env (new_server None dice).
Definition production_server : Server :=
  @AccountHandler production_env (new_server empty_db dice).

(** The text frame that holds the JSON object of a message. *)
Definition frame_of (data : dict string) : frame :=
  Json (JObject (prod_map id JString <$> data)).

(** The message of the spec's end-to-end property. *)
Definition create_bob : dict string :=
  [("event", "createTraveller"); ("travellerName", "Bob");
   ("travellerEmail", "bob@x.com"); ("travellerPassword", "longenoughpw");
   ("ref", "r1")].

(** The same request with no email and no password. *)
Definition create_incomplete : dict string :=
  [("event", "createTraveller"); ("travellerName", "Bob"); ("ref", "abc123")].

(** The same request with an address that the validator refuses. *)
Definition create_bad_email : dict string :=
  [("event", "createTraveller"); ("travellerName", "Bob");
   ("travellerEmail", "bob.x.com"); ("travellerPassword", "longenoughpw");
   ("ref", "abc123")].

(** The same request with a password of valid length that holds the
    character U+00E4. *)
Definition create_non_ascii : dict string :=
  [("event", "createTraveller"); ("travellerName", "Bob");
   ("travellerEmail", "bob@x.com");
   ("travellerPassword", String "p"%char (String "228"%char "ssword1"));
   ("ref", "r1")].

Definition unknown_event : dict string :=
  [("event", "nope"); ("ref", "abc123")].

(** The local server once [client] has connected, and the same server with
    the counter of [client] above the threshold of 100. *)
Definition connected_server : Server := connect client local_server.

Definition throttled_server : Server :=
  set_ip_requests {[ "10.0.0.1" := 101 ]} local_server.

(** The local server after [other_client] has created the account of the
    spec's message in a session of its own. *)
Definition server_with_bob : Server :=
  (@serve local_env other_client
     [Recv (frame_of create_bob); ConnectionClosed 1000] local_server).1.1.

(** ** Registrations in sequence *)

Section Registered.
Context `{Environment}.

(** The server after the callbacks have been registered in turn, as the
    decorators of a handler class do. *)
Definition registered (callbacks : list handler) (s : Server) : Server :=
  fold_left (fun s callback => register callback s) callbacks s.
End Registered.

(** The emails of the travellers of the local table, in its order. *)
Definition emails (d : dict Traveller) : list string :=
  (fun kt => traveller_email kt.2) <$> d.

(** The message of the spec with a field that names the connection
    parameter, and a request for the traveller count with a field that no
    handler declares and no ref. *)
Definition create_forged : dict string :=
  [("event", "createTraveller"); ("wss", "forged"); ("travellerName", "Bob");
   ("travellerEmail", "bob@x.com"); ("travellerPassword", "longenoughpw");
   ("ref", "r1")].

Definition count_travellers : dict string :=
  [("event", "totalTravellers"); ("junk", "x")].

(** ** The message of account creation *)

(** A [createTraveller] message as the spec's end-to-end property writes it:
    the event, the three fields and the ref, in this order. *)
Definition create_traveller_message (event name email password token : string)
  : dict string :=
  [("event", event); ("travellerName", name); ("travellerEmail", email);
   ("travellerPassword", password); ("ref", token)].


(** Two requests whose passwords pass the length test of line 73 and the
    ASCII encoding, and which bcrypt refuses: one holds a NUL byte, the other
    is followed by 70 spaces. *)
Definition create_nul : dict string :=
  create_traveller_message "createTraveller" "Bob" "bob@x.com"
    ("long" ++ String "000"%char "enoughpw") "r1".

Definition create_padded : dict string :=
  create_traveller_message "createTraveller" "Bob" "bob@x.com"
    ("longenoughpw" ++
     "                                                                      ")
    "r1".

(** * Properties *)

(** ** Dictionaries *)

Section DictFacts.
Context {V : Type}.
Implicit Types (d : dict V) (k : string) (v : V).

Lemma dict_in_true k d : dict_in k d = true <-> is_Some (dict_get k d).
Proof.
  unfold dict_in. destruct (dict_get k d); split; intros Hk; eauto.
  - discriminate.
  - by destruct Hk.
Qed.

Lemma dict_in_false k d : dict_in k d = false <-> dict_get k d = None.
Proof. unfold dict_in. by destruct (dict_get k d). Qed.

Lemma dict_get_keys k d : is_Some (dict_get k d) <-> k ∈ dict_keys d.
Proof.
  unfold dict_keys. induction d as [|[k' v'] d IH]; csimpl.
  - split; [intros [? ?]; discriminate | by intros ?%elem_of_nil].
  - rewrite elem_of_cons. case_decide as Hk; subst.
    + split; eauto.
    + rewrite IH. split; [by right | by intros [?|?]].
Qed.

Lemma dict_get_set_eq k v d : dict_get k (dict_set k v d) = Some v.
Proof.
  induction d as [|[k' v'] d IH]; simpl.
  - by rewrite decide_True.
  - case_decide; simpl; [by rewrite decide_True | by rewrite decide_False].
Qed.

Lemma dict_get_set_ne k k' v d :
  k <> k' -> dict_get k' (dict_set k v d) = dict_get k' d.
Proof.
  intros Hne. induction d as [|[k0 v0] d IH]; simpl.
  - by rewrite decide_False.
  - destruct (decide (k = k0)) as [->|]; simpl.
    + by rewrite !decide_False.
    + by rewrite IH.
Qed.

(** The keys after [d[k] = v]: unchanged, or [k] appended. *)
Lemma dict_keys_set k v d :
  dict_keys (dict_set k v d) =
  if dict_in k d then dict_keys d else (dict_keys d ++ [k])%list.
Proof.
  unfold dict_keys, dict_in. induction d as [|[k' v'] d IH]; csimpl; [done|].
  case_decide; subst; csimpl; [done|].
  rewrite IH. by destruct (dict_get k d).
Qed.

(** A dictionary keeps holding each key once. *)
Lemma dict_set_NoDup k v d :
  NoDup (dict_keys d) -> NoDup (dict_keys (dict_set k v d)).
Proof.
  intros Hd. rewrite dict_keys_set.
  destruct (dict_in k d) eqn:Hk; [done|].
  apply NoDup_app. split_and!; [done| |apply NoDup_singleton].
  intros x Hx ->%list_elem_of_singleton.
  apply dict_in_false in Hk. apply dict_get_keys in Hx as [? Hx]. congruence.
Qed.

Lemma dict_of_NoDup (kvs : list (string * V)) : NoDup (dict_keys (dict_of kvs)).
Proof.
  unfold dict_of.
  assert (forall d, NoDup (dict_keys d) ->
            NoDup (dict_keys (fold_left (fun d kv => dict_set kv.1 kv.2 d) kvs d)))
    as Hgen.
  { induction kvs as [|kv kvs IH]; simpl; [done|].
    intros d Hd. by apply IH, dict_set_NoDup. }
  apply Hgen, NoDup_nil_2.
Qed.
End DictFacts.

(** ** Strings *)

Lemma string_app_assoc (s1 s2 s3 : string) :
  (s1 +:+ s2) +:+ s3 = s1 +:+ (s2 +:+ s3).
Proof.
  induction s1 as [|c s1 IH]; [done|].
  change (String c ((s1 +:+ s2) +:+ s3) = String c (s1 +:+ (s2 +:+ s3))).
  by rewrite IH.
Qed.

Lemma string_app_nil_r (s : string) : s +:+ "" = s.
Proof.
  induction s as [|c s IH]; [done|].
  change (String c (s +:+ "") = String c s). by rewrite IH.
Qed.

Lemma string_app_length (s1 s2 : string) :
  String.length (s1 +:+ s2) = (String.length s1 + String.length s2)%nat.
Proof.
  induction s1 as [|c s1 IH]; [done|].
  change (S (String.length (s1 +:+ s2)) =
          S (String.length s1 + String.length s2)).
  by rewrite IH.
Qed.

(** ** The message and its ref *)

Lemma dict_get_fmap {A B : Type} (f : A -> B) (k : string) (d : dict A) :
  dict_get k (prod_map id f <$> d) = f <$> dict_get k d.
Proof.
  induction d as [|[k' v'] d IH]; csimpl; [done|].
  by case_decide.
Qed.

(** [data['ref']], once lines 76-77 have run, is the message's own token, or
    [False]. *)
Lemma with_ref_ref (data : dict string) :
  dict_get "ref" (with_ref data) = Some (ref_of data).
Proof.
  unfold with_ref, ref_of, dict_in. rewrite dict_get_fmap.
  destruct (dict_get "ref" data) as [token|] eqn:Href; csimpl.
  - by rewrite dict_get_fmap, Href.
  - apply dict_get_set_eq.
Qed.

(** ** The registry *)

Section Registry.
Context `{Environment}.

Lemma register_fresh (callback : handler) (s : Server) :
  dict_get (to_camel_case (h_name callback)) (events s) = None ->
  events (register callback s) =
  dict_set (to_camel_case (h_name callback)) callback (events s).
Proof.
  intros Hnone. unfold register.
  by rewrite (proj2 (dict_in_false _ _) Hnone).
Qed.

Lemma register_taken (callback : handler) (s : Server) :
  is_Some (dict_get (to_camel_case (h_name callback)) (events s)) ->
  register callback s = s.
Proof.
  intros Hsome. unfold register.
  by rewrite (proj2 (dict_in_true _ _) Hsome).
Qed.

(** The registry holds each event name once, whatever is registered. *)
Lemma register_NoDup (callback : handler) (s : Server) :
  NoDup (dict_keys (events s)) ->
  NoDup (dict_keys (events (register callback s))).
Proof.
  intros Hs. unfold register.
  destruct (dict_in _ (events s)); [done|]. by apply dict_set_NoDup.
Qed.

(** The loop of lines 124-129 joins the names with the delimiter. *)
Lemma events_listing_concat (events_response : string) (names : list string) :
  events_listing events_response names =
  events_response +:+ String.concat "|" names.
Proof.
  revert events_response.
  induction names as [|ev rest IH]; intros acc; simpl.
  - by rewrite string_app_nil_r.
  - destruct rest as [|ev' rest]; [done|].
    rewrite IH. by rewrite !string_app_assoc.
Qed.

(** C4: registering a handler under a name that is free makes the lookup
    of the name derived from the handler's [__name__] by [to_camel_case]
    return that handler; a second handler whose derived name collides
    with a registered one changes nothing, and [register], a total
    function, raises nothing: the first registration wins.  The other
    names keep their handlers. *)
Theorem register_lookup (callback : handler) (s : Server) :
  let event := to_camel_case (h_name callback) in
  (dict_get event (events s) = None ->
     dict_get event (events (register callback s)) = Some callback)
  /\ (forall second : handler,
        to_camel_case (h_name second) = event ->
        register second (register callback s) = register callback s)
  /\ (forall first : handler,
        dict_get event (events s) = Some first ->
        register callback s = s)
  /\ (forall name : string,
        name <> event ->
        dict_get name (events (register callback s)) =
        dict_get name (events s)).
Proof.
  intros event. split_and!.
  - intros Hnone. rewrite register_fresh by done. apply dict_get_set_eq.
  - intros second Hname. apply register_taken. rewrite Hname.
    destruct (dict_get event (events s)) as [first|] eqn:Hfirst.
    + rewrite register_taken by (subst event; eauto). subst event; eauto.
    + rewrite register_fresh by done.
      subst event. rewrite dict_get_set_eq. eauto.
  - intros first Hfirst. apply register_taken. subst event; eauto.
  - intros name Hname.
    destruct (dict_get event (events s)) as [first|] eqn:Hfirst.
    + rewrite register_taken by (subst event; eauto). done.
    + rewrite register_fresh by done. by apply dict_get_set_ne.
Qed.
End Registry.

(** ** The dispatcher *)

Lemma nonempty_length (event : string) :
  event <> "" -> bool_decide (0 < Z.of_nat (String.length event)) = true.
Proof.
  intros Hne. apply bool_decide_eq_true. destruct event; [done | simpl; lia].
Qed.

Section Dispatcher.
Context `{Environment}.

(** [handle_event] on a message whose event is named, once the message has
    its ref: the lookup decides. *)
Lemma handle_event_named (wss : WebSocket) (data : dict string) (s : Server)
    (event : string) :
  dict_get "event" data = Some event -> event <> "" ->
  handle_event wss data s =
  match dict_get event (events s) with
  | Some target =>
      let args := bind_args wss (h_args target) (with_ref data) (ref_of data) in
      match check_loop_data args (h_args target) with
      | Some args_errored =>
          {| after := backend s; called := None;
             ended := Return (Some
               (format_res_err event "FormatError" (ref_of data)
                  (Some (VStr args_errored)) true [])) |}
      | None =>
          match call target args (backend s) with
          | (b', Returned reply) =>
              {| after := b'; called := Some args; ended := Return reply |}
          | (b', Raised e) =>
              if IS_LOCAL then
                {| after := b'; called := Some args;
                   ended := Return (Some
                     (format_res_err event "EventUnknownError"
                        (VStr "Unknown internal server error.")
                        (Some (ref_of data)) true [])) |}
              else
                match report_bug e b' with
                | Some b'' =>
                    {| after := b''; called := Some args;
                       ended := Return (Some
                         (format_res_err event "EventUnknownError"
                            (VStr "Unknown internal server error.")
                            (Some (ref_of data)) true [])) |}
                | None =>
                    {| after := b'; called := Some args; ended := SystemExit |}
                end
          end
      end
  | None =>
      {| after := backend s; called := None;
         ended := Return (Some
           (format_res_err event "EventNotFound"
              (VStr "This event doesn't exist.") (Some (ref_of data)) true
              [("possibleEvents",
                VStr (events_listing "" (dict_keys (events s))))])) |}
  end.
Proof.
  intros Hevent Hne. unfold handle_event.
  rewrite Hevent, (nonempty_length _ Hne). cbv zeta.
  rewrite with_ref_ref. reflexivity.
Qed.

(** A message without an event, or with an empty one, gets nothing. *)
Lemma handle_event_unnamed (wss : WebSocket) (data : dict string) (s : Server) :
  dict_get "event" data = None \/ dict_get "event" data = Some "" ->
  handle_event wss data s =
  {| after := backend s; called := None; ended := Return None |}.
Proof. intros [Hev|Hev]; unfold handle_event; by rewrite Hev. Qed.

(** pymongo refuses the set that line 114 builds: the bug report is never
    stored. *)
Lemma report_bug_raises (e : string) (b : Backend) : report_bug e b = None.
Proof. unfold report_bug. simpl. by destruct (mdb b). Qed.

(** C6: a message that names an event with no registered handler is
    answered by an error envelope of kind [EventNotFound] whose
    [possibleEvents] field is the registered event names joined by ["|"]
    (so with no trailing delimiter), each name of the registry being in
    the list and none twice. *)
Theorem event_not_found (wss : WebSocket) (data : dict string) (s : Server)
    (event : string) :
  NoDup (dict_keys (events s)) ->
  dict_get "event" data = Some event -> event <> "" ->
  dict_get event (events s) = None ->
  exists names : list string,
    handle_event wss data s =
      {| after := backend s; called := None;
         ended := Return (Some
           (format_res_err event "EventNotFound"
              (VStr "This event doesn't exist.") (Some (ref_of data)) true
              [("possibleEvents", VStr (String.concat "|" names))])) |}
    /\ NoDup names
    /\ (forall name : string,
          name ∈ names <-> is_Some (dict_get name (events s))).
Proof.
  intros Hnodup Hevent Hne Hnone. exists (dict_keys (events s)).
  split_and!; [|done|].
  - rewrite (handle_event_named _ _ _ _ Hevent Hne), Hnone.
    by rewrite events_listing_concat.
  - intros name. symmetry. apply dict_get_keys.
Qed.
End Dispatcher.

(** ** The argument binder *)

Lemma dict_set_keys_elem {V : Type} (k k' : string) (v : V) (d : dict V) :
  k' ∈ dict_keys (dict_set k v d) <-> k' = k \/ k' ∈ dict_keys d.
Proof.
  rewrite dict_keys_set. destruct (dict_in k d) eqn:Hk.
  - apply dict_in_true, dict_get_keys in Hk. split; [by right|].
    by intros [->|?].
  - rewrite elem_of_app, list_elem_of_singleton. tauto.
Qed.

Section Binder.
Context `{Environment}.
Implicit Types (target_args : list string) (data args : dict value).

Lemma bind_field_bound target_args args (item : string * value) :
  bind_field target_args args item =
  match bound_name target_args item.1 with
  | Some k => dict_set k item.2 args
  | None => args
  end.
Proof.
  unfold bind_field, bound_name. cbv zeta.
  by destruct (bool_decide (to_snake_case item.1 true ∈ target_args)).
Qed.

(** A name is bound by the loop exactly when some field provides it. *)
Lemma bind_fields_keys target_args data args (k : string) :
  k ∈ dict_keys (fold_left (bind_field target_args) data args) <->
  k ∈ dict_keys args \/
  exists field, field ∈ dict_keys data /\ bound_name target_args field = Some k.
Proof.
  revert args. induction data as [|[field v] data IH]; intros args; csimpl.
  - split; [by left|]. intros [?|(? & []%elem_of_nil & _)]. done.
  - rewrite IH, bind_field_bound. simpl.
    destruct (bound_name target_args field) as [k'|] eqn:Hb.
    + rewrite dict_set_keys_elem. split.
      * intros [[->|?]|(f & ? & ?)]; [right|by left|right].
        -- exists field. split; [apply list_elem_of_here|done].
        -- exists f. split; [by apply list_elem_of_further|done].
      * intros [?|(f & [->|?]%elem_of_cons & Hf)].
        -- by left; right.
        -- left; left. congruence.
        -- right. by exists f.
    + split.
      * intros [?|(f & ? & ?)]; [by left|right].
        exists f. split; [by apply list_elem_of_further|done].
      * intros [?|(f & [->|?]%elem_of_cons & Hf)]; [by left|congruence|].
        right. by exists f.
Qed.

(** A bound name is a declared parameter, or the event key itself. *)
Lemma bound_name_declared target_args (field k : string) :
  bound_name target_args field = Some k -> k ∈ target_args \/ k = "event".
Proof.
  unfold bound_name. cbv zeta. case_bool_decide as Hin; [|done].
  case_bool_decide as Hev; intros [= <-]; [by right | by left].
Qed.

Lemma bind_args_keys (wss : WebSocket) target_args data (ref : value)
    (k : string) :
  k ∈ dict_keys (bind_args wss target_args data ref) <->
  k ∈ dict_keys (bind_fields target_args data)
  \/ k = "wss" /\ "wss" ∈ target_args
  \/ k = "ref" /\ "ref" ∈ target_args.
Proof.
  unfold bind_args. cbv zeta.
  do 2 case_bool_decide; rewrite ?dict_set_keys_elem; tauto.
Qed.

(** Every keyword of the call is a declared parameter or the event key. *)
Lemma bind_args_declared (wss : WebSocket) target_args data (ref : value)
    (k : string) :
  k ∈ dict_keys (bind_args wss target_args data ref) ->
  k ∈ target_args \/ k = "event".
Proof.
  rewrite bind_args_keys. unfold bind_fields. rewrite bind_fields_keys.
  intros [[[]%elem_of_nil|(f & _ & Hf)]|[[-> ?]|[-> ?]]]; [|by left..].
  by eapply bound_name_declared.
Qed.

(** A field whose translated name is not declared leaves no trace in the
    keyword arguments: the binder drops it. *)
Lemma bind_args_drops (wss : WebSocket) target_args (d1 d2 : dict value)
    (field : string) (v ref : value) :
  to_snake_case field true ∉ target_args ->
  bind_args wss target_args (d1 ++ (field, v) :: d2)%list ref =
  bind_args wss target_args (d1 ++ d2)%list ref.
Proof.
  intros Hunknown. unfold bind_args, bind_fields.
  rewrite !fold_left_app. simpl.
  replace (bind_field target_args
             (fold_left (bind_field target_args) d1 []) (field, v))
    with (fold_left (bind_field target_args) d1 []); [done|].
  unfold bind_field. simpl. by rewrite bool_decide_false.
Qed.

(** A declared parameter that nothing provides is reported missing. *)
Lemma missing_args_elem args target_args (p : string) :
  p ∈ missing_args args target_args <->
  p ∈ target_args /\ p ∉ dict_keys args.
Proof.
  unfold missing_args. rewrite list_elem_of_filter.
  rewrite dict_in_false. split; intros [H1 H2]; split; try done.
  - intros [? Hp]%dict_get_keys. congruence.
  - destruct (dict_get p args) eqn:Hp; [|done].
    exfalso. apply H2, dict_get_keys. eauto.
Qed.

Lemma check_loop_data_missing args target_args (p : string) :
  p ∈ missing_args args target_args ->
  check_loop_data args target_args =
  Some (missing_text (missing_args args target_args)).
Proof.
  unfold check_loop_data.
  destruct (missing_args args target_args); [by intros ?%elem_of_nil | done].
Qed.

End Binder.

(** ** Binding failures and handler faults *)

Section Faults.
Context `{Environment}.

(** C7: for a message that names a registered event, when a declared
    parameter of the handler that is not injected ([wss], [ref]) is
    provided by no field of the message, the handler is not called (the
    state is untouched) and the reply is an error envelope of kind
    [FormatError] that carries the text naming the missing parameters,
    this one among them (the text travels in the position that the
    formatter reads as the ref).  When the handler is called, it is with
    the bound arguments, each a declared parameter or the event key; and
    a field whose translated name is not declared changes nothing in
    them: it is dropped. *)
Theorem missing_parameter (wss : WebSocket) (data : dict string) (s : Server)
    (event : string) (target : handler) :
  dict_get "event" data = Some event -> event <> "" ->
  dict_get event (events s) = Some target ->
  let target_args := h_args target in
  let args := bind_args wss target_args (with_ref data) (ref_of data) in
  (forall p : string,
     p ∈ target_args -> p <> "wss" -> p <> "ref" ->
     Forall (fun field => bound_name target_args field <> Some p)
       (dict_keys (with_ref data)) ->
     p ∈ missing_args args target_args
     /\ handle_event wss data s =
        {| after := backend s; called := None;
           ended := Return (Some
             (format_res_err event "FormatError" (ref_of data)
                (Some (VStr (missing_text (missing_args args target_args))))
                true [])) |})
  /\ (forall kwargs : dict value,
        called (handle_event wss data s) = Some kwargs ->
        kwargs = args
        /\ forall k, k ∈ dict_keys kwargs -> k ∈ target_args \/ k = "event")
  /\ (forall (d1 d2 : dict value) (field : string) (v : value),
        with_ref data = (d1 ++ (field, v) :: d2)%list ->
        to_snake_case field true ∉ target_args ->
        args = bind_args wss target_args (d1 ++ d2)%list (ref_of data)).
Proof.
  intros Hevent Hne Htarget target_args args.
  rewrite (handle_event_named _ _ _ _ Hevent Hne), Htarget. cbv zeta.
  fold target_args. fold args. split_and!.
  - intros p Hp Hwss Href Hfields.
    assert (p ∈ missing_args args target_args) as Hmissing.
    { apply missing_args_elem. split; [done|]. subst args.
      rewrite bind_args_keys. unfold bind_fields. rewrite bind_fields_keys.
      intros [[[]%elem_of_nil|(field & Hfield & Hbound)]|[[? _]|[? _]]];
        [|done..].
      rewrite Forall_forall in Hfields. by apply (Hfields field). }
    split; [done|]. by rewrite (check_loop_data_missing _ _ _ Hmissing).
  - intros kwargs Hcalled.
    assert (kwargs = args) as ->.
    { destruct (check_loop_data args target_args); [done|].
      destruct (call target args (backend s)) as [b' [reply|e]];
        [by injection Hcalled|].
      destruct IS_LOCAL; [by injection Hcalled|].
      destruct (report_bug e b'); by injection Hcalled. }
    split; [done|]. intros k. apply bind_args_declared.
  - intros d1 d2 field v Hdata Hunknown. subst args.
    rewrite Hdata. by apply bind_args_drops.
Qed.

(** In production, the bug report of a fault is never stored and
    [handle_event] leaves through [exit()]. *)
Lemma production_fault_exits (wss : WebSocket) (data : dict string)
    (s : Server) (event : string) (target : handler) (b' : Backend)
    (e : string) :
  IS_LOCAL = false ->
  dict_get "event" data = Some event -> event <> "" ->
  dict_get event (events s) = Some target ->
  let args := bind_args wss (h_args target) (with_ref data) (ref_of data) in
  check_loop_data args (h_args target) = None ->
  call target args (backend s) = (b', Raised e) ->
  handle_event wss data s =
  {| after := b'; called := Some args; ended := SystemExit |}.
Proof.
  intros Hprod Hevent Hne Htarget args Hbound Hcall.
  rewrite (handle_event_named _ _ _ _ Hevent Hne), Htarget. cbv zeta.
  fold args. by rewrite Hbound, Hcall, Hprod, report_bug_raises.
Qed.

(** In local mode [handle_event] never leaves through [exit()]. *)
Lemma local_handle_event_returns (wss : WebSocket) (data : dict string)
    (s : Server) :
  IS_LOCAL = true -> ended (handle_event wss data s) <> SystemExit.
Proof.
  intros Hlocal.
  destruct (dict_get "event" data) as [event|] eqn:Hevent;
    [|by rewrite handle_event_unnamed by auto].
  destruct (decide (event = "")) as [->|Hne];
    [by rewrite handle_event_unnamed by auto|].
  rewrite (handle_event_named _ _ _ _ Hevent Hne).
  destruct (dict_get event (events s)) as [target|]; [|done]. cbv zeta.
  destruct (check_loop_data _ _); [done|].
  destruct (call _ _ _) as [b' [reply|e]]; [done|].
  by rewrite Hlocal.
Qed.
End Faults.

(** ** The receive loop *)

Lemma checked_string_object (j : json) (data : dict string) :
  checked j = Some data <-> string_object (Json j) data.
Proof.
  unfold string_object. split.
  - destruct j as [| | | | |members]; try done. simpl. intros Hm.
    exists members. split; [done|]. apply mapM_Some in Hm.
    induction Hm as [|[k v] [k' v'] l l' Hkv _ IH]; csimpl; [done|].
    rewrite IH. destruct v; simplify_eq/=. done.
  - intros (members & [= ->] & Hd). simpl. rewrite Hd.
    apply mapM_Some. clear Hd.
    induction data as [|[k v] data IH]; csimpl; by constructor.
Qed.

Lemma loads_checked_string_object (response : frame) (data : dict string) :
  loads response ≫= checked = Some data <-> string_object response data.
Proof.
  destruct response as [j|text]; simpl.
  - apply checked_string_object.
  - split; [done | by intros (? & ? & _)].
Qed.

Section ServeFacts.
Context `{Environment}.

(** Above the threshold a frame is read and nothing else happens. *)
Lemma on_frame_throttled (wss : WebSocket) (response : frame) (s : Server)
    (n : Z) :
  ip_requests s !! ip wss = Some n -> IP_RATELIMIT_MAX < n ->
  on_frame wss response s = (s, [], Receiving).
Proof.
  intros Hn Hmax. unfold on_frame. by rewrite Hn, bool_decide_true.
Qed.

Lemma serve_loop_throttled (wss : WebSocket) (frames : list frame)
    (s : Server) (n : Z) :
  ip_requests s !! ip wss = Some n -> IP_RATELIMIT_MAX < n ->
  serve_loop wss (Recv <$> frames) s = (s, [], Receiving).
Proof.
  intros Hn Hmax. induction frames as [|response frames IH]; csimpl; [done|].
  by rewrite (on_frame_throttled _ _ _ _ Hn Hmax), IH.
Qed.

(** The table of counters after a frame: untouched above the threshold,
    else the identity's counter is one more, whatever the frame holds. *)
Lemma on_frame_ip_requests (wss : WebSocket) (response : frame) (s : Server)
    (n : Z) :
  ip_requests s !! ip wss = Some n ->
  ip_requests (on_frame wss response s).1.1 =
  if bool_decide (IP_RATELIMIT_MAX < n) then ip_requests s
  else <[ip wss := n + 1]> (ip_requests s).
Proof.
  intros Hn. unfold on_frame. rewrite Hn.
  case_bool_decide; [done|].
  destruct (loads response) as [j|]; [|done]. simpl.
  destruct (checked j) as [data|]; [|done].
  by destruct (ended _) as [[reply|]|].
Qed.

(** No counter of the table ever goes down, or away. *)
Lemma on_frame_monotone (wss : WebSocket) (response : frame) (s : Server)
    (a : string) (n : Z) :
  ip_requests s !! a = Some n ->
  exists n', ip_requests (on_frame wss response s).1.1 !! a = Some n' /\ n <= n'.
Proof.
  intros Ha.
  destruct (ip_requests s !! ip wss) as [m|] eqn:Hm.
  - rewrite (on_frame_ip_requests _ _ _ _ Hm).
    case_bool_decide; [exists n; split; [done|lia]|].
    destruct (decide (a = ip wss)) as [->|Hne].
    + rewrite lookup_insert_eq. exists (m + 1). split; [done|].
      assert (n = m) by congruence. lia.
    + rewrite lookup_insert_ne by done. exists n. split; [done|lia].
  - unfold on_frame. rewrite Hm. exists n. split; [done|lia].
Qed.

Lemma on_closed_ip_requests (wss : WebSocket) (s : Server) :
  ip_requests (on_closed wss s) = ip_requests s.
Proof.
  unfold on_closed. destruct (_ !! _); [|done]. by destruct IS_LOCAL.
Qed.

Lemma serve_loop_monotone (wss : WebSocket) (inputs : list received)
    (s : Server) (a : string) (n : Z) :
  ip_requests s !! a = Some n ->
  exists n',
    ip_requests (serve_loop wss inputs s).1.1 !! a = Some n' /\ n <= n'.
Proof.
  revert s n. induction inputs as [|[response|code] inputs IH];
    intros s n Ha; simpl.
  - exists n. split; [done|lia].
  - destruct (on_frame_monotone wss response s a n Ha) as (n1 & Ha1 & Hle1).
    destruct (on_frame wss response s) as [[s1 acts1] st1]. simpl in Ha1.
    destruct st1; try (exists n1; by split).
    destruct (IH s1 n1 Ha1) as (n2 & Ha2 & Hle2).
    destruct (serve_loop wss inputs s1) as [[s2 acts2] st2]. simpl in *.
    exists n2. split; [done|lia].
  - rewrite on_closed_ip_requests. exists n. split; [done|lia].
Qed.

(** C2, as the code has it: for an identity whose counter already exceeds
    the threshold, any number of further frames, valid or not, leaves the
    counter (and the whole server) as it is and reaches neither the
    dispatcher nor the client; while the counter does not exceed the
    threshold, each received frame adds one to it, whatever the frame
    holds; and no run of the loop ever lowers it. *)
Theorem rate_limit (wss : WebSocket) (s : Server) (n : Z) :
  ip_requests s !! ip wss = Some n ->
  (IP_RATELIMIT_MAX < n ->
     forall frames : list frame,
       serve_loop wss (Recv <$> frames) s = (s, [], Receiving))
  /\ (n <= IP_RATELIMIT_MAX ->
        forall response : frame,
          ip_requests (on_frame wss response s).1.1 !! ip wss = Some (n + 1))
  /\ (forall inputs : list received,
        exists n',
          ip_requests (serve_loop wss inputs s).1.1 !! ip wss = Some n'
          /\ n <= n').
Proof.
  intros Hn. split_and!.
  - intros Hmax frames. by eapply serve_loop_throttled.
  - intros Hmax response. rewrite (on_frame_ip_requests _ _ _ _ Hn).
    rewrite bool_decide_false by lia. apply lookup_insert_eq.
  - intros inputs. by apply serve_loop_monotone.
Qed.

(** C5: a frame that is not a JSON object of strings, or that is one whose
    [event] is missing or empty, is answered by nothing. *)
Theorem malformed_frame_dropped (wss : WebSocket) (response : frame)
    (s : Server) :
  (forall data : dict string,
     string_object response data ->
     dict_get "event" data = None \/ dict_get "event" data = Some "") ->
  sent (on_frame wss response s).1.2 = [].
Proof.
  intros Hframe. unfold on_frame.
  destruct (ip_requests s !! ip wss) as [n|]; [|done].
  case_bool_decide; [done|].
  destruct (loads response) as [j|] eqn:Hj; [|done]. simpl.
  destruct (checked j) as [data|] eqn:Hdata; [|done].
  rewrite handle_event_unnamed; [done|].
  apply Hframe, loads_checked_string_object. by rewrite Hj.
Qed.

(** C8: a disconnect and a reconnect of the same identity leave its
    counter (the whole table) as it was, [connect] setting a counter only
    for an identity that has none; the disconnect removes the identity's
    account link, except in local mode, where the link stays; the links of
    the other identities stay in both modes. *)
Theorem reconnect (wss : WebSocket) (s : Server) (code : Z) :
  let s1 := (serve_loop wss [ConnectionClosed code] s).1.1 in
  let s2 := (serve wss [] s1).1.1 in
  (forall n : Z,
     ip_requests s !! ip wss = Some n ->
     ip_requests s1 = ip_requests s /\ ip_requests s2 = ip_requests s
     /\ ip_requests s2 !! ip wss = Some n)
  /\ (ip_requests s !! ip wss = None ->
        ip_requests (connect wss s) !! ip wss = Some 0)
  /\ wss_accounts (backend s1) !! ip wss =
     (if IS_LOCAL then wss_accounts (backend s) !! ip wss else None)
  /\ (forall other : string,
        other <> ip wss ->
        wss_accounts (backend s1) !! other =
        wss_accounts (backend s) !! other).
Proof.
  simpl. split_and!.
  - intros n Hn. rewrite on_closed_ip_requests. split; [done|].
    unfold connect. rewrite on_closed_ip_requests, Hn.
    by rewrite on_closed_ip_requests.
  - intros Hnone. unfold connect. rewrite Hnone. simpl.
    apply lookup_insert_eq.
  - unfold on_closed.
    destruct (wss_accounts (backend s) !! ip wss) eqn:Hlink;
      destruct IS_LOCAL; simpl; try done.
    apply lookup_delete_eq.
  - intros other Hother. unfold on_closed.
    destruct (wss_accounts (backend s) !! ip wss);
      destruct IS_LOCAL; simpl; try done.
    by rewrite lookup_delete_ne.
Qed.

Lemma on_frame_local (wss : WebSocket) (response : frame) (s : Server) :
  IS_LOCAL = true -> (on_frame wss response s).2 <> Exited.
Proof.
  intros Hlocal. unfold on_frame.
  destruct (ip_requests s !! ip wss) as [n|]; [|done].
  case_bool_decide; [done|].
  destruct (loads response) as [j|]; [|done]. simpl.
  destruct (checked j) as [data|]; [|done].
  pose proof (local_handle_event_returns wss data
    (set_ip_requests (<[ip wss:=n + 1]> (ip_requests s)) s) Hlocal) as Hret.
  by destruct (ended _) as [[reply|]|].
Qed.

Lemma serve_loop_local (wss : WebSocket) (inputs : list received) (s : Server) :
  IS_LOCAL = true -> (serve_loop wss inputs s).2 <> Exited.
Proof.
  intros Hlocal. revert s.
  induction inputs as [|[response|code] inputs IH]; intros s; simpl; [done| |done].
  pose proof (on_frame_local wss response s Hlocal) as Hframe.
  destruct (on_frame wss response s) as [[s1 acts1] st1].
  destruct st1; try done.
  specialize (IH s1). by destruct (serve_loop wss inputs s1) as [[s2 acts2] st2].
Qed.

(** [handle_event] looks at the registry and the account state only. *)
Lemma handle_event_ip_requests (wss : WebSocket) (data : dict string)
    (s : Server) (r : gmap string Z) :
  handle_event wss data (set_ip_requests r s) = handle_event wss data s.
Proof. done. Qed.

(** A turn of the loop on a frame that is dispatched and answered. *)
Lemma on_frame_answered (wss : WebSocket) (response : frame)
    (data : dict string) (s : Server) (n : Z) (b' : Backend)
    (kwargs : option (dict value)) (reply : envelope) :
  ip_requests s !! ip wss = Some n -> n <= IP_RATELIMIT_MAX ->
  loads response ≫= checked = Some data ->
  handle_event wss data s =
    {| after := b'; called := kwargs; ended := Return (Some reply) |} ->
  on_frame wss response s =
  (incr_total_requests
     (set_backend b' (set_ip_requests (<[ip wss := n + 1]> (ip_requests s)) s)),
   [Dispatch data; Send reply], Receiving).
Proof.
  intros Hn Hmax Hdata Hreply. unfold on_frame.
  rewrite Hn, bool_decide_eq_false_2 by lia.
  destruct (loads response) as [j|]; [|done]. simpl in Hdata.
  rewrite Hdata. cbv zeta.
  by rewrite handle_event_ip_requests, Hreply.
Qed.

(** C10: in local mode a fault of the handler is answered by the
    [EventUnknownError] envelope with the generic message and the ref of
    the message, the state is left as the handler left it (nothing is
    written to any store), and neither [handle_event] nor the loop of
    [serve] can leave through [exit()], whatever they receive; the loop
    sends that envelope to the client when the frame that holds the message
    arrives on a connection whose counter does not exceed the threshold, and
    goes on receiving. *)
Theorem local_fault (wss : WebSocket) (s : Server) :
  IS_LOCAL = true ->
  (forall (data : dict string) (event : string) (target : handler)
          (b' : Backend) (e : string),
     dict_get "event" data = Some event -> event <> "" ->
     dict_get event (events s) = Some target ->
     let args := bind_args wss (h_args target) (with_ref data) (ref_of data) in
     check_loop_data args (h_args target) = None ->
     call target args (backend s) = (b', Raised e) ->
     handle_event wss data s =
     {| after := b'; called := Some args;
        ended := Return (Some
          (format_res_err event "EventUnknownError"
             (VStr "Unknown internal server error.")
             (Some (ref_of data)) true [])) |})
  /\ (forall data : dict string,
        ended (handle_event wss data s) <> SystemExit)
  /\ (forall inputs : list received, (serve wss inputs s).2 <> Exited)
  /\ (forall (response : frame) (data : dict string) (event : string)
             (target : handler) (b' : Backend) (e : string) (n : Z),
        ip_requests s !! ip wss = Some n -> n <= IP_RATELIMIT_MAX ->
        loads response ≫= checked = Some data ->
        dict_get "event" data = Some event -> event <> "" ->
        dict_get event (events s) = Some target ->
        let args :=
          bind_args wss (h_args target) (with_ref data) (ref_of data) in
        check_loop_data args (h_args target) = None ->
        call target args (backend s) = (b', Raised e) ->
        let turn := on_frame wss response s in
        sent turn.1.2 =
          [format_res_err event "EventUnknownError"
             (VStr "Unknown internal server error.")
             (Some (ref_of data)) true []]
        /\ dispatched turn.1.2 = [data]
        /\ backend turn.1.1 = b'
        /\ turn.2 = Receiving).
Proof.
  intros Hlocal.
  assert (forall (data : dict string) (event : string) (target : handler)
                 (b' : Backend) (e : string),
            dict_get "event" data = Some event -> event <> "" ->
            dict_get event (events s) = Some target ->
            let args :=
              bind_args wss (h_args target) (with_ref data) (ref_of data) in
            check_loop_data args (h_args target) = None ->
            call target args (backend s) = (b', Raised e) ->
            handle_event wss data s =
            {| after := b'; called := Some args;
               ended := Return (Some
                 (format_res_err event "EventUnknownError"
                    (VStr "Unknown internal server error.")
                    (Some (ref_of data)) true [])) |}) as Hfault.
  { intros data event target b' e Hevent Hne Htarget args Hbound Hcall.
    rewrite (handle_event_named _ _ _ _ Hevent Hne), Htarget. cbv zeta.
    fold args. by rewrite Hbound, Hcall, Hlocal. }
  split_and!.
  - exact Hfault.
  - intros data. by apply local_handle_event_returns.
  - intros inputs. by apply serve_loop_local.
  - intros response data event target b' e n Hn Hmax Hdata Hevent Hne Htarget
      args Hbound Hcall turn. subst turn.
    by rewrite (on_frame_answered wss response data s n b' _ _ Hn Hmax Hdata
                  (Hfault data event target b' e Hevent Hne Htarget Hbound
                     Hcall)).
Qed.
End ServeFacts.

(** ** Account creation *)


(** Every character of the alphabet of [gen_id] is a letter or a digit. *)
Lemma alphabet_alnum (n : nat) :
  (n < 62)%nat ->
  exists c, String.get n (ascii_letters +:+ digits) = Some c /\ isalnum c = true.
Proof.
  intros Hn.
  do 62 (destruct n as [|n]; [by eexists|]). lia.
Qed.


Lemma gen_id_loop_S (i : nat) (result_id : string) (r : Rng) :
  gen_id_loop (S i) result_id r =
  gen_id_loop i
    (result_id +:+ String (choice (ascii_letters +:+ digits) r).1 "")
    (choice (ascii_letters +:+ digits) r).2.
Proof.
  change (gen_id_loop (S i) result_id r) with
    (let (c, r') := choice (ascii_letters +:+ digits) r in
     gen_id_loop i (result_id +:+ String c "") r').
  by destruct (choice (ascii_letters +:+ digits) r).
Qed.

Lemma gen_id_loop_length (i : nat) (result_id : string) (r : Rng) :
  String.length (gen_id_loop i result_id r).1 =
  (String.length result_id + i)%nat.
Proof.
  revert result_id r. induction i as [|i IH]; intros result_id r.
  - simpl. lia.
  - rewrite gen_id_loop_S, IH, string_app_length.
    change (String.length (String (choice (ascii_letters +:+ digits) r).1 ""))
      with 1%nat.
    lia.
Qed.






Section Accounts.
Context `{Environment}.








End Accounts.

(** * The properties at work *)

(** The message of the spec's end-to-end property, sent twice on a fresh
    connection to the local server: the dispatcher reaches
    [create_traveller] both times. *)
Example create_bob_end_to_end :
  sent (@serve local_env client
          [Recv (frame_of create_bob); Recv (frame_of create_bob)]
          local_server).1.2 =
  [ format_res "createTraveller" (VStr "r1")
      [("travellerId", VStr "dkryFMT07elszGN")];
    @format_res_err local_env "createTraveller" "AlreadyLoggedIn"
      (VStr "You are currently logged in. Logout and try again.")
      (Some (VStr "r1")) false [] ].
Proof. by vm_compute. Qed.

(** C1: on the production server, the request [create_non_ascii] makes
    [create_traveller] raise ([UnicodeEncodeError]); [handle_event] then
    hands [insert_one] a set, which pymongo refuses, and the process exits:
    the client gets no [EventUnknownError] envelope and no diagnostic
    record reaches the store, although the store is reachable. *)
Theorem production_fault_terminates :
  let run :=
    @serve production_env client [Recv (frame_of create_non_ascii)]
      production_server in
  run.1.2 = [Dispatch create_non_ascii]
  /\ sent run.1.2 = []
  /\ run.2 = Exited
  /\ mdb (backend run.1.1) = Some {| reachable := true; users := [] |}.
Proof. by vm_compute. Qed.

(** C3: two replies that do not carry the ref [abc123] of their message.
    The [FormatError] reply to [create_incomplete] has the ref as its
    message and the text of the missing parameters as its ref; the
    [EmailInvalid] reply of [create_traveller] to [create_bad_email] is
    formatted without the ref. *)
Theorem ref_not_echoed :
  (fun reply => (env_error reply, env_message reply, env_ref reply)) <$>
    sent (@serve local_env client [Recv (frame_of create_incomplete)]
            local_server).1.2 =
  [ (Some "FormatError", Some (VStr "abc123"),
     VStr "traveller_email, traveller_password") ]
  /\ (fun reply => (env_error reply, env_message reply, env_ref reply)) <$>
       sent (@serve local_env client [Recv (frame_of create_bad_email)]
               local_server).1.2 =
     [ (Some "EmailInvalid", Some (VStr "The email address is not valid."),
        VBool false) ].
Proof. by vm_compute. Qed.

(** C2, as stated, fails: the counter of [client] is 101, above the
    threshold of 100; one further valid frame is not dispatched, and the
    counter is still 101, not 102. *)
Lemma throttled_counter_unchanged :
  let run :=
    @serve_loop local_env client [Recv (frame_of create_bob)] throttled_server in
  ip_requests throttled_server !! ip client = Some 101
  /\ @IP_RATELIMIT_MAX local_env = 100
  /\ loads (frame_of create_bob) ≫= checked = Some create_bob
  /\ dispatched run.1.2 = []
  /\ ip_requests run.1.1 !! ip client = Some 101
  /\ ip_requests run.1.1 !! ip client <> Some (101 + 1).
Proof. by vm_compute. Qed.

(** Three further frames, one of them not JSON, on the throttled server:
    nothing moves. *)
Lemma rate_limit_witness :
  @serve_loop local_env client
    (Recv <$> [frame_of create_bob; NotJson "{"; frame_of unknown_event])
    throttled_server
  = (throttled_server, [], Receiving).
Proof.
  refine (proj1 (@rate_limit local_env client throttled_server 101 _) _ _);
    by vm_compute.
Defined.

(** Four frames that get no reply: text that is not JSON, an object with a
    number in it, an empty event, no event. *)
Lemma malformed_frame_dropped_witness :
  sent (@on_frame local_env client (NotJson "{") connected_server).1.2 = []
  /\ sent (@on_frame local_env client
             (Json (JObject [("event", JString "createTraveller");
                             ("travellerName", JNumber 7)]))
             connected_server).1.2 = []
  /\ sent (@on_frame local_env client
             (frame_of [("event", ""); ("ref", "abc123")])
             connected_server).1.2 = []
  /\ sent (@on_frame local_env client (frame_of [("ref", "abc123")])
             connected_server).1.2 = [].
Proof.
  split_and!; apply (@malformed_frame_dropped local_env);
    intros data (members & [= <-] & Hdata); vm_compute in Hdata.
  - by destruct data as [|[k1 v1] [|[k2 v2] [|]]].
  - destruct data as [|[k1 v1] [|[k2 v2] [|]]]; simplify_eq/=. by right.
  - destruct data as [|[k1 v1] [|]]; simplify_eq/=. by left.
Defined.

(** The reply to [unknown_event] on the local server, whose registry holds
    the three events of [AccountHandler]. *)
Lemma event_not_found_witness :
  exists names : list string,
    @handle_event local_env client unknown_event local_server =
      {| after := backend local_server; called := None;
         ended := Return (Some
           (@format_res_err local_env "nope" "EventNotFound"
              (VStr "This event doesn't exist.")
              (Some (ref_of unknown_event)) true
              [("possibleEvents", VStr (String.concat "|" names))])) |}
    /\ NoDup names
    /\ (forall name : string,
          name ∈ names <-> is_Some (dict_get name (events local_server))).
Proof.
  apply (@event_not_found local_env); [compute_done|done|done|done].
Defined.

(** The reply to [create_incomplete], which gives neither the email nor the
    password that [create_traveller] declares. *)
Lemma missing_parameter_witness :
  "traveller_email" ∈
    missing_args
      (@bind_args local_env client
         (h_args (@create_traveller_handler local_env))
         (with_ref create_incomplete) (ref_of create_incomplete))
      (h_args (@create_traveller_handler local_env))
  /\ @handle_event local_env client create_incomplete local_server =
     {| after := backend local_server; called := None;
        ended := Return (Some
          (@format_res_err local_env "createTraveller" "FormatError"
             (VStr "abc123")
             (Some (VStr "traveller_email, traveller_password")) true [])) |}.
Proof.
  destruct (@missing_parameter local_env client create_incomplete local_server
              "createTraveller" (@create_traveller_handler local_env))
    as (Hmissing & _ & _); [by vm_compute..|].
  destruct (Hmissing "traveller_email") as [Hin Hreply];
    [compute_done|done|done|by repeat constructor|].
  split; [done|]. rewrite Hreply. by vm_compute.
Defined.


(** Two more requests of an unlinked identity whose name, email and
    password pass the tests of lines 64-74 and which create no account: the
    length test of line 73 looks at the stripped password, line 97 hashes
    the password as it came, and [hashpw] (here the stand-in
    [sample_hashpw]) refuses a NUL byte and a text of more than 72 bytes.
    The reply is the envelope [EventUnknownError]. *)
Example create_refused_by_hashpw :
  let refused :=
    [ @format_res_err local_env "createTraveller" "EventUnknownError"
        (VStr "Unknown internal server error.") (Some (VStr "r1")) true [] ] in
  let run_nul :=
    @serve local_env client [Recv (frame_of create_nul)] local_server in
  let run_padded :=
    @serve local_env client [Recv (frame_of create_padded)] local_server in
  (forall password : string,
     dict_get "travellerPassword" create_nul = Some password
     \/ dict_get "travellerPassword" create_padded = Some password ->
     in_limits MIN_PASS_LENGTH MAX_PASS_LENGTH password = true
     /\ is_Some (bytes_ascii password))
  /\ sent run_nul.1.2 = refused
  /\ wss_accounts (backend run_nul.1.1) !! ip client = None
  /\ sent run_padded.1.2 = refused
  /\ wss_accounts (backend run_padded.1.1) !! ip client = None.
Proof.
  split; [|by vm_compute].
  intros password [[= <-]|[= <-]]; (split; [by vm_compute|by eexists]).
Qed.


(** The fault of [create_traveller] on [create_non_ascii], in local mode:
    what [handle_event] returns, and what the loop sends to [client]. *)
Lemma local_fault_witness :
  ended (@handle_event local_env client create_non_ascii local_server) =
  Return (Some
    (@format_res_err local_env "createTraveller" "EventUnknownError"
       (VStr "Unknown internal server error.") (Some (VStr "r1")) true []))
  /\ sent (@on_frame local_env client (frame_of create_non_ascii)
             connected_server).1.2 =
     [@format_res_err local_env "createTraveller" "EventUnknownError"
        (VStr "Unknown internal server error.") (Some (VStr "r1")) true []]
  /\ (@on_frame local_env client (frame_of create_non_ascii)
        connected_server).2 = Receiving.
Proof.
  pose (outcome := call (@create_traveller_handler local_env)
          (@bind_args local_env client
             (h_args (@create_traveller_handler local_env))
             (with_ref create_non_ascii) (ref_of create_non_ascii))
          (backend local_server)).
  split.
  - destruct (@local_fault local_env client local_server eq_refl)
      as (Hfault & _ & _ & _).
    rewrite (Hfault create_non_ascii "createTraveller"
               (@create_traveller_handler local_env) outcome.1
               "UnicodeEncodeError"); by vm_compute.
  - destruct (@local_fault local_env client connected_server eq_refl)
      as (_ & _ & _ & Hsent).
    destruct (Hsent (frame_of create_non_ascii) create_non_ascii
                "createTraveller" (@create_traveller_handler local_env)
                outcome.1 "UnicodeEncodeError" 0)
      as (Hreply & _ & _ & Hstatus); [by vm_compute..|].
    by split.
Defined.

(** * Further properties of the code *)

(** ** The registry, over a sequence of registrations *)

Section RegistrySequences.
Context `{Environment}.

Lemma registered_lookup_from (callbacks : list handler) (s : Server)
    (name : string) :
  dict_get name (events (registered callbacks s)) =
  match dict_get name (events s) with
  | Some first => Some first
  | None =>
      List.find (fun cb => bool_decide (to_camel_case (h_name cb) = name))
        callbacks
  end.
Proof.
  revert s. induction callbacks as [|cb callbacks IH]; intros s; simpl.
  - by destruct (dict_get name (events s)).
  - rewrite IH. clear IH.
    destruct (dict_get (to_camel_case (h_name cb)) (events s))
      as [taken|] eqn:Hcb.
    + rewrite register_taken by eauto.
      destruct (dict_get name (events s)) eqn:Hname; [done|].
      rewrite bool_decide_eq_false_2; [done|]. intros <-. congruence.
    + rewrite register_fresh by done.
      case_bool_decide as Hsame.
      * subst name. by rewrite dict_get_set_eq, Hcb.
      * by rewrite dict_get_set_ne.
Qed.

Lemma registered_NoDup (callbacks : list handler) (s : Server) :
  NoDup (dict_keys (events s)) ->
  NoDup (dict_keys (events (registered callbacks s))).
Proof.
  revert s. induction callbacks as [|cb callbacks IH]; intros s Hs; [done|].
  simpl. by apply IH, register_NoDup.
Qed.

Lemma register_rest (callback : handler) (s : Server) :
  total_requests (register callback s) = total_requests s
  /\ ip_requests (register callback s) = ip_requests s
  /\ backend (register callback s) = backend s.
Proof. unfold register. by destruct (dict_in _ _). Qed.

(** X1: on a fresh server, after any sequence of registrations, the event
    names of the registry are distinct, the handler found under a name is
    the first callback of the sequence whose derived name it is (none when
    there is no such callback), and nothing but the registry has changed. *)
Theorem registered_first_wins (db : option Database) (r : Rng)
    (callbacks : list handler) :
  let s := registered callbacks (new_server db r) in
  NoDup (dict_keys (events s))
  /\ (forall name : string,
        dict_get name (events s) =
        List.find (fun cb => bool_decide (to_camel_case (h_name cb) = name))
          callbacks)
  /\ total_requests s = 0
  /\ ip_requests s = ∅
  /\ backend s = backend (new_server db r).
Proof.
  split_and!.
  - apply registered_NoDup. simpl. apply NoDup_nil_2.
  - intros name. by rewrite registered_lookup_from.
  - induction callbacks as [|cb callbacks IH] using rev_ind; [done|].
    unfold registered. rewrite fold_left_app. simpl.
    by rewrite (proj1 (register_rest _ _)).
  - induction callbacks as [|cb callbacks IH] using rev_ind; [done|].
    unfold registered. rewrite fold_left_app. simpl.
    by rewrite (proj1 (proj2 (register_rest _ _))).
  - induction callbacks as [|cb callbacks IH] using rev_ind; [done|].
    unfold registered. rewrite fold_left_app. simpl.
    by rewrite (proj2 (proj2 (register_rest _ _))).
Qed.
End RegistrySequences.

(** ** What the dispatcher hands to a handler, and what it leaves alone *)

Section DispatcherMore.
Context `{Environment}.

(** A call of the target is a call with the bound arguments of a named,
    registered event whose parameters are all provided. *)
Lemma handle_event_called (wss : WebSocket) (data : dict string) (s : Server)
    (kwargs : dict value) :
  called (handle_event wss data s) = Some kwargs ->
  exists (event : string) (target : handler),
    dict_get "event" data = Some event /\ event <> ""
    /\ dict_get event (events s) = Some target
    /\ kwargs = bind_args wss (h_args target) (with_ref data) (ref_of data)
    /\ check_loop_data kwargs (h_args target) = None.
Proof.
  destruct (dict_get "event" data) as [event|] eqn:Hevent;
    [|by rewrite handle_event_unnamed by auto].
  destruct (decide (event = "")) as [->|Hne];
    [by rewrite handle_event_unnamed by auto|].
  rewrite (handle_event_named _ _ _ _ Hevent Hne).
  destruct (dict_get event (events s)) as [target|] eqn:Htarget; [|done].
  cbv zeta.
  destruct (check_loop_data _ _) eqn:Hcheck; [done|].
  intros Hcalled. exists event, target.
  assert (kwargs =
          bind_args wss (h_args target) (with_ref data) (ref_of data)) as ->.
  { destruct (call _ _ _) as [b' [reply|e]]; [by injection Hcalled|].
    destruct IS_LOCAL; [by injection Hcalled|].
    destruct (report_bug e b'); by injection Hcalled. }
  done.
Qed.

Lemma bind_args_wss (wss : WebSocket) (target_args : list string)
    (data : dict value) (ref w : value) :
  dict_get "wss" (bind_args wss target_args data ref) = Some w ->
  w = VWss wss.
Proof.
  destruct (decide ("wss" ∈ target_args)) as [Hin|Hout].
  - unfold bind_args. cbv zeta. rewrite (bool_decide_eq_true_2 _ Hin).
    case_bool_decide.
    + rewrite dict_get_set_ne by done. rewrite dict_get_set_eq. congruence.
    + rewrite dict_get_set_eq. congruence.
  - intros Hw.
    assert ("wss" ∈ dict_keys (bind_args wss target_args data ref)) as Hkey
      by (apply dict_get_keys; eauto).
    by apply bind_args_declared in Hkey as [?|?].
Qed.

Lemma bind_args_ref (wss : WebSocket) (target_args : list string)
    (data : dict value) (ref r : value) :
  dict_get "ref" (bind_args wss target_args data ref) = Some r -> r = ref.
Proof.
  destruct (decide ("ref" ∈ target_args)) as [Hin|Hout].
  - unfold bind_args. cbv zeta. rewrite (bool_decide_eq_true_2 _ Hin).
    rewrite dict_get_set_eq. congruence.
  - intros Hr.
    assert ("ref" ∈ dict_keys (bind_args wss target_args data ref)) as Hkey
      by (apply dict_get_keys; eauto).
    by apply bind_args_declared in Hkey as [?|?].
Qed.

(** X2: a message cannot forge the injected arguments.  Whenever the
    dispatcher calls a handler, the [wss] argument of the call, if there is
    one, is the connection the frame came from, and its [ref] argument, if
    there is one, is the ref of the message (or [False]), whatever fields
    the message holds. *)
Theorem injected_arguments (wss : WebSocket) (data : dict string) (s : Server)
    (kwargs : dict value) :
  called (handle_event wss data s) = Some kwargs ->
  (forall w : value, dict_get "wss" kwargs = Some w -> w = VWss wss)
  /\ (forall r : value, dict_get "ref" kwargs = Some r -> r = ref_of data).
Proof.
  intros (event & target & _ & _ & _ & -> & _)%handle_event_called.
  split; intros v Hv.
  - by eapply bind_args_wss.
  - by eapply bind_args_ref.
Qed.

(** X3: when [handle_event] does not call a handler it changes nothing and
    does not end the process: the state it leaves is the state it found,
    and it returns (a reply or nothing). *)
Theorem no_call_no_effect (wss : WebSocket) (data : dict string) (s : Server) :
  called (handle_event wss data s) = None ->
  after (handle_event wss data s) = backend s
  /\ ended (handle_event wss data s) <> SystemExit.
Proof.
  destruct (dict_get "event" data) as [event|] eqn:Hevent;
    [|by rewrite handle_event_unnamed by auto].
  destruct (decide (event = "")) as [->|Hne];
    [by rewrite handle_event_unnamed by auto|].
  rewrite (handle_event_named _ _ _ _ Hevent Hne).
  destruct (dict_get event (events s)) as [target|]; [|done]. cbv zeta.
  destruct (check_loop_data _ _); [done|].
  destruct (call _ _ _) as [b' [reply|e]]; [done|].
  destruct IS_LOCAL; [done|]. by destruct (report_bug e b').
Qed.
End DispatcherMore.

(** ** Whole sessions *)

Lemma sent_app (a1 a2 : list action) : sent (a1 ++ a2) = (sent a1 ++ sent a2)%list.
Proof. unfold sent. apply omap_app. Qed.

Lemma dispatched_app (a1 a2 : list action) :
  dispatched (a1 ++ a2) = (dispatched a1 ++ dispatched a2)%list.
Proof. unfold dispatched. apply omap_app. Qed.

Section Sessions.
Context `{Environment}.

(** What one turn of the loop can do to the server and can emit. *)
Lemma on_frame_effects (wss : WebSocket) (response : frame) (s : Server) :
  let turn := on_frame wss response s in
  events turn.1.1 = events s
  /\ total_requests turn.1.1 =
     total_requests s + Z.of_nat (length (sent turn.1.2))
  /\ (length (sent turn.1.2) <= length (dispatched turn.1.2))%nat
  /\ (length (dispatched turn.1.2) <= 1)%nat
  /\ (forall a : string,
        a <> ip wss -> ip_requests turn.1.1 !! a = ip_requests s !! a).
Proof.
  unfold on_frame.
  destruct (ip_requests s !! ip wss) as [n|];
    [|simpl; split_and!; [done|lia|lia|lia|done]].
  case_bool_decide; [simpl; split_and!; [done|lia|lia|lia|done]|].
  destruct (loads response) as [j|]; simpl;
    [|split_and!; [done|lia|lia|lia|by intros; rewrite lookup_insert_ne]].
  destruct (checked j) as [data|]; simpl;
    [|split_and!; [done|lia|lia|lia|by intros; rewrite lookup_insert_ne]].
  destruct (ended _) as [[reply|]|]; simpl;
    (split_and!; [done|lia|lia|lia|by intros; rewrite lookup_insert_ne]).
Qed.

(** X4: over any run of the receive loop, [total_requests] grows by exactly
    the number of replies sent; every reply answers a dispatched frame, and
    no more frames are dispatched than were received. *)
Theorem replies_counted (wss : WebSocket) (inputs : list received) (s : Server) :
  let run := serve_loop wss inputs s in
  total_requests run.1.1 = total_requests s + Z.of_nat (length (sent run.1.2))
  /\ (length (sent run.1.2) <= length (dispatched run.1.2))%nat
  /\ (length (dispatched run.1.2) <= length inputs)%nat.
Proof.
  revert s. induction inputs as [|[response|code] inputs IH]; intros s; simpl.
  - split_and!; [lia|done|done].
  - pose proof (on_frame_effects wss response s) as (_ & Htotal & Hsent & Hone & _).
    destruct (on_frame wss response s) as [[s1 a1] st1]. simpl in *.
    destruct st1; simpl; try (split_and!; [done|done|lia]).
    specialize (IH s1). destruct (serve_loop wss inputs s1) as [[s2 a2] st2].
    simpl in *. destruct IH as (IHtotal & IHsent & IHdisp).
    rewrite sent_app, dispatched_app, !length_app. split_and!; lia.
  - unfold on_closed. destruct (_ !! _); [|split_and!; [lia|done|lia]].
    destruct IS_LOCAL; simpl; split_and!; lia || done.
Qed.

(** X5: the counter of an identity moves up by at least one for each frame
    of it that is dispatched, and never beyond one above the threshold
    (unless it started higher): from a counter [n], a run of the loop
    dispatches at most [IP_RATELIMIT_MAX + 1 - n] frames. *)
Theorem counter_saturates (wss : WebSocket) (inputs : list received)
    (s : Server) (n : Z) :
  ip_requests s !! ip wss = Some n ->
  let run := serve_loop wss inputs s in
  exists n' : Z,
    ip_requests run.1.1 !! ip wss = Some n'
    /\ n + Z.of_nat (length (dispatched run.1.2)) <= n'
    /\ n' <= Z.max n (IP_RATELIMIT_MAX + 1).
Proof.
  revert s n. induction inputs as [|[response|code] inputs IH];
    intros s n Hn; simpl.
  - exists n. split_and!; [done|lia|lia].
  - pose proof (on_frame_ip_requests wss response s n Hn) as Hcount.
    pose proof (on_frame_effects wss response s) as (_ & _ & _ & Hone & _).
    assert (IP_RATELIMIT_MAX < n ->
            dispatched (on_frame wss response s).1.2 = []) as Hnone.
    { intros Hmax. by rewrite (on_frame_throttled _ _ _ _ Hn Hmax). }
    destruct (on_frame wss response s) as [[s1 a1] st1]. simpl in *.
    assert (exists n1, ip_requests s1 !! ip wss = Some n1
              /\ n + Z.of_nat (length (dispatched a1)) <= n1
              /\ n1 <= Z.max n (IP_RATELIMIT_MAX + 1)) as (n1 & Hn1 & Hlo & Hhi).
    { rewrite Hcount. case_bool_decide as Hmax.
      - exists n. rewrite (Hnone Hmax). simpl. split_and!; [done|lia|lia].
      - exists (n + 1). rewrite lookup_insert_eq. split_and!; [done|lia|lia]. }
    destruct st1; simpl; try (exists n1; by split_and!).
    destruct (IH s1 n1 Hn1) as (n2 & Hn2 & Hlo2 & Hhi2).
    destruct (serve_loop wss inputs s1) as [[s2 a2] st2]. simpl in *.
    exists n2. rewrite dispatched_app, length_app. split_and!; [done|lia|lia].
  - rewrite on_closed_ip_requests. exists n. split_and!; [done|lia|lia].
Qed.

Lemma serve_loop_frame (wss : WebSocket) (inputs : list received) (s : Server) :
  events (serve_loop wss inputs s).1.1 = events s
  /\ forall a : string,
       a <> ip wss ->
       ip_requests (serve_loop wss inputs s).1.1 !! a = ip_requests s !! a.
Proof.
  revert s. induction inputs as [|[response|code] inputs IH]; intros s; simpl.
  - done.
  - pose proof (on_frame_effects wss response s) as (Hev & _ & _ & _ & Hip).
    destruct (on_frame wss response s) as [[s1 a1] st1]. simpl in *.
    destruct st1; simpl; try done.
    specialize (IH s1). destruct (serve_loop wss inputs s1) as [[s2 a2] st2].
    simpl in *. destruct IH as [IHev IHip]. split; [congruence|].
    intros a Ha. by rewrite IHip, Hip.
  - rewrite on_closed_ip_requests. split; [|done].
    unfold on_closed. destruct (_ !! _); [|done]. by destruct IS_LOCAL.
Qed.

(** X6: a connection, whatever it sends and however it ends, leaves the
    registry as it was and touches the counter of no other identity. *)
Theorem session_frame (wss : WebSocket) (inputs : list received) (s : Server) :
  events (serve wss inputs s).1.1 = events s
  /\ forall a : string,
       a <> ip wss ->
       ip_requests (serve wss inputs s).1.1 !! a = ip_requests s !! a.
Proof.
  unfold serve.
  destruct (serve_loop_frame wss inputs (connect wss s)) as [Hev Hip].
  assert (events (connect wss s) = events s) as Hcev
    by (unfold connect; by destruct (_ !! _)).
  split; [congruence|]. intros a Ha. rewrite (Hip a Ha).
  unfold connect. destruct (ip_requests s !! ip wss); [done|]. simpl.
  by rewrite lookup_insert_ne.
Qed.

(** X7: the loop reads its input in order: a run over two stretches of input
    is the run over the first and, if that one is still receiving, the run
    over the second from where the first left the server; once the first
    has stopped (disconnect, exit, uncaught exception) the second is never
    read. *)
Theorem serve_loop_app (wss : WebSocket) (inputs1 inputs2 : list received)
    (s : Server) :
  serve_loop wss (inputs1 ++ inputs2) s =
  match serve_loop wss inputs1 s with
  | (s1, acts1, Receiving) =>
      let '(s2, acts2, st) := serve_loop wss inputs2 s1 in
      (s2, (acts1 ++ acts2)%list, st)
  | stopped => stopped
  end.
Proof.
  revert s. induction inputs1 as [|[response|code] inputs1 IH]; intros s.
  - simpl. by destruct (serve_loop wss inputs2 s) as [[s2 a2] st2].
  - simpl. destruct (on_frame wss response s) as [[s1 a1] st1].
    destruct st1; try done. rewrite IH.
    destruct (serve_loop wss inputs1 s1) as [[s1' a1'] st1'].
    destruct st1'; try done.
    destruct (serve_loop wss inputs2 s1') as [[s2 a2] st2].
    by rewrite app_assoc.
  - done.
Qed.

(** A turn of the loop on a frame does not disconnect. *)
Lemma on_frame_connected (wss : WebSocket) (response : frame) (s : Server) :
  (on_frame wss response s).2 <> Disconnected.
Proof.
  unfold on_frame. destruct (ip_requests s !! ip wss) as [n|]; [|done].
  case_bool_decide; [done|].
  destruct (loads response) as [j|]; [|done]. simpl.
  destruct (checked j) as [data|]; [|done].
  by destruct (ended _) as [[reply|]|].
Qed.

(** X8: in production, a session that has ended by [ConnectionClosed]
    leaves its identity without an account link, whatever the handlers did
    during the session. *)
Theorem disconnected_unlinked (wss : WebSocket) (inputs : list received)
    (s s' : Server) (acts : list action) :
  IS_LOCAL = false ->
  serve wss inputs s = (s', acts, Disconnected) ->
  wss_accounts (backend s') !! ip wss = None.
Proof.
  intros Hprod. unfold serve. generalize (connect wss s). clear s.
  revert acts. induction inputs as [|[response|code] inputs IH];
    intros acts s; simpl.
  - done.
  - pose proof (on_frame_connected wss response s) as Hconn.
    destruct (on_frame wss response s) as [[s1 a1] st1].
    destruct st1; try done.
    destruct (serve_loop wss inputs s1) as [[s2 a2] st2] eqn:Hrest.
    intros [= <- <- ->]. by eapply IH.
  - intros [= <- <-]. unfold on_closed. rewrite Hprod. simpl.
    destruct (wss_accounts (backend s) !! ip wss) eqn:Hlink; [|done].
    simpl. apply lookup_delete_eq.
Qed.
End Sessions.

(** ** The identifiers of [gen_id] *)

Lemma choice_draw (seq : string) (r : Rng) :
  choice seq r =
  (default "000"%char
     (String.get (tape r (cursor r) mod String.length seq)%nat seq),
   {| tape := tape r; cursor := S (cursor r) |}).
Proof. reflexivity. Qed.

Lemma gen_id_loop_rng (i : nat) (result_id : string) (r : Rng) :
  (gen_id_loop i result_id r).2 =
  {| tape := tape r; cursor := (cursor r + i)%nat |}.
Proof.
  revert result_id r. induction i as [|i IH]; intros result_id r.
  - simpl. destruct r as [t c]. simpl. f_equal. lia.
  - rewrite gen_id_loop_S, IH, choice_draw. simpl. f_equal. lia.
Qed.

(** The loop only appends. *)
Lemma gen_id_loop_prefix (i : nat) (result_id : string) (r : Rng) (j : nat) :
  (j < String.length result_id)%nat ->
  String.get j (gen_id_loop i result_id r).1 = String.get j result_id.
Proof.
  revert result_id r. induction i as [|i IH]; intros result_id r Hj; [done|].
  rewrite gen_id_loop_S, IH.
  - symmetry. by apply String.append_correct1.
  - rewrite string_app_length. lia.
Qed.

Lemma gen_id_loop_get (i : nat) (result_id : string) (r : Rng) (k : nat) :
  (k < i)%nat ->
  String.get (String.length result_id + k) (gen_id_loop i result_id r).1 =
  String.get (tape r (cursor r + k) mod 62)%nat (ascii_letters +:+ digits).
Proof.
  revert result_id r k. induction i as [|i IH]; intros result_id r k Hk; [lia|].
  rewrite gen_id_loop_S.
  assert (String.get (tape r (cursor r) mod 62)%nat (ascii_letters +:+ digits)
          = Some (choice (ascii_letters +:+ digits) r).1) as Hfirst.
  { rewrite choice_draw. cbn [fst].
    change (String.length (ascii_letters +:+ digits)) with 62%nat.
    destruct (alphabet_alnum (tape r (cursor r) mod 62)) as (c & -> & _);
      [|done].
    apply Nat.mod_upper_bound. lia. }
  assert ((choice (ascii_letters +:+ digits) r).2 =
          {| tape := tape r; cursor := S (cursor r) |}) as Hrest
    by by rewrite choice_draw.
  revert Hfirst Hrest.
  generalize (choice (ascii_letters +:+ digits) r). intros [c r'] Hfirst Hrest.
  cbn [fst snd] in *. subst r'.
  destruct k as [|k].
  - rewrite gen_id_loop_prefix
      by (rewrite string_app_length; cbn [String.length]; lia).
    rewrite !Nat.add_0_r.
    pose proof (String.append_correct2 result_id (String c "") 0) as Happ.
    cbn [Nat.add String.get] in Happ. by rewrite <- Happ, Hfirst.
  - replace (String.length result_id + S k)%nat
      with (String.length (result_id +:+ String c "") + k)%nat
      by (rewrite string_app_length; cbn [String.length]; lia).
    rewrite IH by lia. cbn [tape cursor].
    by replace (S (cursor r) + k)%nat with (cursor r + S k)%nat by lia.
Qed.

(** X9: [gen_id] makes exactly 15 draws and returns 15 characters, the
    [k]-th being the character of [ascii_letters + digits] at the index of
    the [k]-th draw (modulo the 62 characters): the identifier is a function
    of the draws alone, with nothing that tells it from an identifier in
    use. *)
Theorem gen_id_draws (r : Rng) :
  (gen_id r).2 = {| tape := tape r; cursor := (cursor r + 15)%nat |}
  /\ String.length (gen_id r).1 = 15%nat
  /\ forall k : nat,
       (k < 15)%nat ->
       String.get k (gen_id r).1 =
       String.get (tape r (cursor r + k) mod 62)%nat (ascii_letters +:+ digits).
Proof.
  unfold gen_id. split_and!.
  - apply gen_id_loop_rng.
  - by rewrite gen_id_loop_length.
  - intros k Hk. by rewrite <- (gen_id_loop_get 15 "" r k Hk).
Qed.

(** ** Reading the users back *)

Lemma get_users_loop_defined (cursors : list document) (result_users : dict bson) :
  is_Some (get_users_loop cursors result_users) <->
  Forall (fun cursor => dict_in "_id" cursor = true /\ dict_del "_id" cursor <> [])
    cursors.
Proof.
  revert result_users.
  induction cursors as [|cursor cursors IH]; intros acc; simpl.
  - split; [by constructor | eauto].
  - rewrite Forall_cons. destruct (dict_in "_id" cursor).
    + destruct (dict_del "_id" cursor) as [|[k v] rest].
      * split; [by intros [? ?] | by intros [[_ ?] _]].
      * rewrite IH. split; [by intros ? | by intros [_ ?]].
    + split; [by intros [? ?] | by intros [[? _] _]].
Qed.

Lemma get_users_loop_origin (cursors : list document) (acc us : dict bson)
    (k : string) (v : bson) :
  get_users_loop cursors acc = Some us ->
  dict_get k us = Some v ->
  dict_get k acc = Some v
  \/ exists cursor, cursor ∈ cursors /\ head (dict_del "_id" cursor) = Some (k, v).
Proof.
  revert acc. induction cursors as [|cursor cursors IH]; intros acc; simpl.
  - intros [= ->] Hk. by left.
  - destruct (dict_in "_id" cursor); [|done].
    destruct (dict_del "_id" cursor) as [|[k' v'] rest] eqn:Hdel; [done|].
    intros Hloop Hk. destruct (IH _ Hloop Hk) as [Hacc|(c & Hc & Hhead)].
    + destruct (decide (k' = k)) as [->|Hne].
      * rewrite dict_get_set_eq in Hacc. injection Hacc as ->.
        right. exists cursor. split; [apply list_elem_of_here|].
        by rewrite Hdel.
      * rewrite dict_get_set_ne in Hacc by done. by left.
    + right. exists c. split; [by apply list_elem_of_further|done].
Qed.

(** X10: [get_users] returns when, and only when, the database handle is
    set, the deployment answers and every document of the collection has an
    [_id] and at least one other field; any other document makes it raise.
    Each user it returns is the first field, other than [_id], of some
    stored document. *)
Theorem get_users_defined (b : Backend) :
  (is_Some (get_users b) <->
   exists db : Database,
     mdb b = Some db /\ reachable db = true
     /\ Forall (fun cursor =>
                  dict_in "_id" cursor = true /\ dict_del "_id" cursor <> [])
          (users db))
  /\ (forall (us : dict bson) (k : string) (v : bson),
        get_users b = Some us -> dict_get k us = Some v ->
        exists (db : Database) (cursor : document),
          mdb b = Some db /\ cursor ∈ users db
          /\ head (dict_del "_id" cursor) = Some (k, v)).
Proof.
  unfold get_users, find_all. split.
  - destruct (mdb b) as [db|]; simpl.
    + destruct (reachable db) eqn:Hreach; simpl.
      * rewrite get_users_loop_defined. split; [by exists db|].
        by intros (db' & [= <-] & _ & Hall).
      * split; [by intros [? ?]|]. intros (db' & [= <-] & ? & _). congruence.
    + split; [by intros [? ?] | by intros (? & ? & _)].
  - intros us k v. destruct (mdb b) as [db|]; [|done]. simpl.
    destruct (reachable db); [|done]. simpl. intros Hloop Hk.
    destruct (get_users_loop_origin _ _ _ _ _ Hloop Hk) as [?|(c & Hc & Hh)];
      [done|].
    by exists db, c.
Qed.


(** ** What [create_traveller] changes and what it replies *)

Lemma email_taken_local_false (d : dict Traveller) (email : string) :
  email_taken_local d email = false -> email ∉ emails d.
Proof.
  unfold emails. induction d as [|[k t] d IH]; csimpl.
  - intros _. apply not_elem_of_nil.
  - case_bool_decide as Hsame; [done|]. intros Hrest.
    rewrite not_elem_of_cons. split; [congruence | by apply IH].
Qed.

Lemma emails_dict_set (id : string) (t : Traveller) (d : dict Traveller)
    (x : string) :
  x ∈ emails (dict_set id t d) -> x = traveller_email t \/ x ∈ emails d.
Proof.
  unfold emails. induction d as [|[k v] d IH]; csimpl.
  - intros ->%list_elem_of_singleton. by left.
  - case_decide; csimpl; rewrite !elem_of_cons.
    + intros [->|?]; [by left | by right; right].
    + intros [->|Hx]; [by right; left|].
      destruct (IH Hx); [by left | by right; right].
Qed.

Lemma emails_dict_set_NoDup (id : string) (t : Traveller) (d : dict Traveller) :
  NoDup (emails d) -> traveller_email t ∉ emails d ->
  NoDup (emails (dict_set id t d)).
Proof.
  unfold emails. induction d as [|[k v] d IH]; csimpl.
  - intros _ _. apply NoDup_singleton.
  - rewrite NoDup_cons, not_elem_of_cons. intros [Hv Hd] [Hne Ht].
    case_decide; csimpl; apply NoDup_cons.
    + done.
    + split; [|by apply IH].
      intros [?|?]%emails_dict_set; [congruence|done].
Qed.

(** The production branch of lines 99-103: the state once [insert_one] has
    returned. *)
Ltac stored_in_database :=
  match goal with
  | Hstored : _ ≫= _ = Some _ |- _ =>
      apply bind_Some in Hstored as (? & _ & [= <-])
  end.

Section AccountsMore.
Context `{Environment}.

(** The table of local travellers after [create_traveller]: as it was, or
    with one traveller set whose email no traveller had. *)
Lemma create_traveller_travellers (wss : WebSocket) (event : string)
    (ref name email password : value) (b : Backend) :
  (travellers (create_traveller wss event ref name email password b).1 =
   travellers b)
  \/ exists (id : string) (t : Traveller),
       (traveller_email t ∉ emails (travellers b))
       /\ travellers (create_traveller wss event ref name email password b).1 =
          dict_set id t (travellers b).
Proof.
  unfold create_traveller, is_email_taken.
  repeat case_match; simplify_eq/=; try by left.
  - right. eexists _, _. split; [|reflexivity]. simpl.
    by apply email_taken_local_false.
  - left. by stored_in_database.
Qed.

(** X12: [create_traveller] touches the link of no other identity; a reply
    that refuses the request leaves the whole state as it was; a fault
    leaves the links, the local table and the database as they were (only
    random draws are consumed); and the handler always replies or raises,
    it never returns nothing. *)
Theorem create_traveller_effects (wss : WebSocket) (event : string)
    (ref name email password : value) (b : Backend) :
  let result := create_traveller wss event ref name email password b in
  (forall other : string,
     other <> ip wss ->
     wss_accounts result.1 !! other = wss_accounts b !! other)
  /\ (forall reply : envelope,
        result.2 = Returned (Some reply) -> env_error reply <> None ->
        result.1 = b)
  /\ (forall e : string,
        result.2 = Raised e ->
        wss_accounts result.1 = wss_accounts b
        /\ travellers result.1 = travellers b
        /\ mdb result.1 = mdb b)
  /\ result.2 <> Returned None.
Proof.
  unfold create_traveller.
  repeat case_match; simplify_eq/=; try stored_in_database;
    split_and!; try done;
    try (intros other Hother; by rewrite lookup_insert_ne);
    try (by intros reply [= <-]).
Qed.

(** X13: no two travellers of the local table share an email, and
    [create_traveller] keeps it so, whatever it is called with. *)
Theorem create_traveller_unique_emails (wss : WebSocket) (event : string)
    (ref name email password : value) (b : Backend) :
  NoDup (emails (travellers b)) ->
  NoDup (emails
           (travellers (create_traveller wss event ref name email password b).1)).
Proof.
  intros Hb.
  destruct (create_traveller_travellers wss event ref name email password b)
    as [->|(id & t & Hfree & ->)]; [done|].
  by apply emails_dict_set_NoDup.
Qed.
End AccountsMore.

(** ** The refusals and the fault of [create_traveller] *)

Lemma lstrip_spaces (s : string) :
  string_forallb isspace s = true -> lstrip s = "".
Proof.
  induction s as [|c s IH]; [done|]. simpl.
  destruct (isspace c); [apply IH | done].
Qed.

(** A text of whitespace only strips to nothing, so no limits with a
    positive lower bound admit it. *)
Lemma in_limits_spaces (lo hi : nat) (s : string) :
  (0 < lo)%nat -> string_forallb isspace s = true -> in_limits lo hi s = false.
Proof.
  intros Hlo Hs. unfold in_limits, strip. rewrite (lstrip_spaces s Hs).
  cbn. destruct lo; [lia | done].
Qed.

Section Refusals.
Context `{Environment}.

(** X14: for an identity with no link, a name that is empty or made of
    whitespace only is refused with [NameExceedsLimit] before the email is
    looked at; with a valid name and email, a password that is empty or
    made of whitespace only is refused with [PasswordExceedsLimit].  Both
    replies carry the ref and change nothing. *)
Theorem create_traveller_blank (wss : WebSocket) (event : string)
    (ref : value) (b : Backend) :
  wss_accounts b !! ip wss = None ->
  (forall (name : string) (email password : value),
     string_forallb isspace name = true ->
     create_traveller wss event ref (VStr name) email password b =
     (b, Returned (Some (format_res_err event "NameExceedsLimit"
        (VStr "Traveller name must be between 3 and 20 characters long.")
        (Some ref) false []))))
  /\ (forall name email password : string,
        in_limits MIN_ACCOUNT_NAME MAX_ACCOUNT_NAME name = true ->
        validate_email email = None ->
        string_forallb isspace password = true ->
        create_traveller wss event ref (VStr name) (VStr email)
          (VStr password) b =
        (b, Returned (Some (format_res_err event "PasswordExceedsLimit"
           (VStr "Traveller password must be between 8 and 20 characters.")
           (Some ref) false [])))).
Proof.
  intros Hfree.
  assert (check_account (ip wss) b = false) as Hcheck.
  { unfold check_account. apply bool_decide_eq_false. rewrite Hfree.
    by intros [? ?]. }
  split.
  - intros name email password Hname. unfold create_traveller.
    rewrite Hcheck. by rewrite in_limits_spaces by (done || compute; lia).
  - intros name email password Hname Hemail Hpass. unfold create_traveller.
    rewrite Hcheck, Hname, Hemail. simpl negb. cbv iota.
    by rewrite in_limits_spaces by (done || compute; lia).
Qed.

(** X15: a password that passes the length check but holds a character
    outside ASCII makes [create_traveller] raise, in both modes, once the
    identifier has been drawn: the 15 draws of [gen_id] are consumed, and
    nothing is stored and no link is made. *)
Theorem create_traveller_non_ascii (wss : WebSocket) (event : string)
    (ref : value) (name email password : string) (b : Backend) :
  wss_accounts b !! ip wss = None ->
  in_limits MIN_ACCOUNT_NAME MAX_ACCOUNT_NAME name = true ->
  validate_email email = None ->
  in_limits MIN_PASS_LENGTH MAX_PASS_LENGTH password = true ->
  is_email_taken email b = Some false ->
  bytes_ascii password = None ->
  create_traveller wss event ref (VStr name) (VStr email) (VStr password) b =
  ({| mdb := mdb b; wss_accounts := wss_accounts b;
      travellers := travellers b;
      rng := {| tape := tape (rng b); cursor := (cursor (rng b) + 15)%nat |} |},
   Raised "UnicodeEncodeError").
Proof.
  intros Hfree Hname Hemail Hpass Htaken Hascii.
  pose proof (gen_id_loop_rng 15 "" (rng b)) as Hrng.
  unfold create_traveller.
  assert (check_account (ip wss) b = false) as ->.
  { unfold check_account. apply bool_decide_eq_false. rewrite Hfree.
    by intros [? ?]. }
  rewrite Hname, Hemail, Hpass, Htaken. simpl negb. cbv iota.
  fold (gen_id (rng b)) in Hrng.
  destruct (gen_id (rng b)) as [id r]. simpl in Hrng. subst r.
  by rewrite Hascii.
Qed.

(** X16: every reply of [create_traveller] names the event it answers; it
    is a success or one of five refusals ([AlreadyLoggedIn],
    [NameExceedsLimit], [EmailInvalid], [PasswordExceedsLimit],
    [EmailInUse]) and nothing else; it carries the ref of the call, except
    [EmailInvalid], which carries the formatter's no-ref sentinel; and a
    success names the identifier to which the identity is then linked. *)
Theorem create_traveller_replies (wss : WebSocket) (event : string)
    (ref name email password : value) (b : Backend) (reply : envelope) :
  (create_traveller wss event ref name email password b).2 =
    Returned (Some reply) ->
  env_originalEvent reply = event
  /\ env_error reply ∈
       [None; Some "AlreadyLoggedIn"; Some "NameExceedsLimit";
        Some "EmailInvalid"; Some "PasswordExceedsLimit"; Some "EmailInUse"]
  /\ (env_error reply <> Some "EmailInvalid" -> env_ref reply = ref)
  /\ (env_error reply = Some "EmailInvalid" -> env_ref reply = NO_REF)
  /\ (env_error reply = None ->
        exists id : string,
          env_extra reply = [("travellerId", VStr id)]
          /\ wss_accounts
               (create_traveller wss event ref name email password b).1
             !! ip wss = Some id).
Proof.
  unfold create_traveller.
  repeat case_match; simplify_eq/=; try stored_in_database;
    intros [= <-]; simpl; (split_and!; [done|compute_done|done..|]);
    try done; intros _; eexists; (split; [done|]); simpl;
    apply lookup_insert_eq.
Qed.
End Refusals.

(** ** The two handlers without parameters of their own *)

Lemma with_ref_event (data : dict string) (event : string) :
  dict_get "event" data = Some event ->
  "event" ∈ dict_keys (with_ref data).
Proof.
  intros Hevent. apply dict_get_keys. exists (VStr event). unfold with_ref.
  destruct (dict_in "ref" _); [|rewrite dict_get_set_ne by done];
    by rewrite dict_get_fmap, Hevent.
Qed.

Section Stubs.
Context `{Environment}.

(** A handler that declares [wss], [event] and [ref] only is always called,
    with exactly these three arguments. *)
Lemma bind_args_three (wss : WebSocket) (data : dict string) (event : string) :
  to_snake_case "event" true = "event" ->
  dict_get "event" data = Some event ->
  let target_args := ["wss"; "event"; "ref"] in
  let args := bind_args wss target_args (with_ref data) (ref_of data) in
  check_loop_data args target_args = None
  /\ dict_keys args ⊆ target_args
  /\ target_args ⊆ dict_keys args
  /\ dict_get "ref" args = Some (ref_of data).
Proof.
  intros Hsnake Hevent target_args args.
  assert (forall k, k ∈ dict_keys args -> k ∈ target_args) as Hdeclared.
  { intros k [?| ->]%bind_args_declared; [done|]. subst target_args.
    by apply list_elem_of_further, list_elem_of_here. }
  assert ("wss" ∈ target_args) as Hwss by apply list_elem_of_here.
  assert ("ref" ∈ target_args) as Href
    by (subst target_args; do 2 apply list_elem_of_further;
        apply list_elem_of_here).
  assert (forall p, p ∈ target_args -> p ∈ dict_keys args) as Hprovided.
  { intros p Hp. subst args. rewrite bind_args_keys.
    subst target_args. apply elem_of_cons in Hp as [->|Hp]; [by right; left|].
    apply elem_of_cons in Hp as [->|Hp].
    - left. unfold bind_fields. rewrite bind_fields_keys. right.
      exists "event". split; [by eapply with_ref_event|].
      unfold bound_name. cbv zeta. rewrite Hsnake.
      rewrite bool_decide_eq_true_2; [done|].
      by apply list_elem_of_further, list_elem_of_here.
    - apply list_elem_of_singleton in Hp as ->. by right; right. }
  split_and!; [|done|done|].
  - unfold check_loop_data.
    destruct (missing_args args target_args) as [|p missing] eqn:Hmissing;
      [done|].
    assert (p ∈ missing_args args target_args) as [Hp Hout]%missing_args_elem
      by (rewrite Hmissing; apply list_elem_of_here).
    by apply Hprovided in Hp.
  - subst args. unfold bind_args. cbv zeta.
    rewrite (bool_decide_eq_true_2 _ Href). apply dict_get_set_eq.
Qed.

(** X17: a message that names [total_travellers] or [fetch_travellers]
    (under whatever event name it is registered) is always answered by the
    handler's success reply, with the ref of the message and the constant
    payload, whatever other fields the message holds; the state is left as
    it was.  (It is assumed of the missing [to_snake_case] that it leaves
    the word [event] as it is.) *)
Theorem stub_handlers (wss : WebSocket) (data : dict string) (s : Server)
    (event : string) :
  to_snake_case "event" true = "event" ->
  dict_get "event" data = Some event -> event <> "" ->
  (dict_get event (events s) = Some total_travellers ->
     ended (handle_event wss data s) =
       Return (Some (format_res "totalTravellers" (ref_of data)
                       [("totalTravellers", VInt 0)]))
     /\ after (handle_event wss data s) = backend s)
  /\ (dict_get event (events s) = Some fetch_travellers ->
        ended (handle_event wss data s) =
          Return (Some (format_res "fetchTravellers" (ref_of data)
                          [("travellerIds", VList [])]))
        /\ after (handle_event wss data s) = backend s).
Proof.
  intros Hsnake Hevent Hne.
  destruct (bind_args_three wss data event Hsnake Hevent)
    as (Hcheck & Hsub1 & Hsub2 & Href).
  rewrite (handle_event_named _ _ _ _ Hevent Hne).
  split; intros ->; cbv zeta; simpl h_args; rewrite Hcheck; unfold call;
    simpl h_args; rewrite !bool_decide_eq_true_2 by done; simpl;
    by rewrite Href.
Qed.
End Stubs.

(** * The further properties at work *)

(** The forged [wss] field of [create_forged] does not reach the handler. *)
Lemma injected_arguments_witness :
  let kwargs :=
    [("event", VStr "createTraveller"); ("wss", VWss client);
     ("traveller_name", VStr "Bob"); ("traveller_email", VStr "bob@x.com");
     ("traveller_password", VStr "longenoughpw"); ("ref", VStr "r1")] in
  (forall w : value, dict_get "wss" kwargs = Some w -> w = VWss client)
  /\ (forall r : value,
        dict_get "ref" kwargs = Some r -> r = ref_of create_forged).
Proof.
  apply (@injected_arguments local_env client create_forged local_server).
  by vm_compute.
Defined.

(** The reply to [unknown_event] is built without a call. *)
Lemma no_call_no_effect_witness :
  after (@handle_event local_env client unknown_event local_server) =
    backend local_server
  /\ ended (@handle_event local_env client unknown_event local_server) <>
     SystemExit.
Proof.
  apply (@no_call_no_effect local_env client unknown_event local_server).
  by vm_compute.
Defined.

(** Two frames on the freshly connected local server. *)
Lemma counter_saturates_witness :
  let run :=
    @serve_loop local_env client
      [Recv (frame_of create_bob); Recv (NotJson "{")] connected_server in
  exists n' : Z,
    ip_requests run.1.1 !! ip client = Some n'
    /\ 0 + Z.of_nat (length (dispatched run.1.2)) <= n'
    /\ n' <= Z.max 0 (@IP_RATELIMIT_MAX local_env + 1).
Proof.
  apply (@counter_saturates local_env client
           [Recv (frame_of create_bob); Recv (NotJson "{")]
           connected_server 0).
  by vm_compute.
Defined.

(** An account is created on the production server and the connection
    closes. *)
Lemma disconnected_unlinked_witness :
  wss_accounts
    (backend
       (@serve production_env client
          [Recv (frame_of create_bob); ConnectionClosed 1000]
          production_server).1.1)
  !! ip client = None.
Proof.
  assert ((@serve production_env client
             [Recv (frame_of create_bob); ConnectionClosed 1000]
             production_server).2 = Disconnected) as Hst by by vm_compute.
  apply (@disconnected_unlinked production_env client
           [Recv (frame_of create_bob); ConnectionClosed 1000]
           production_server _
           (@serve production_env client
              [Recv (frame_of create_bob); ConnectionClosed 1000]
              production_server).1.2 eq_refl).
  rewrite <- Hst. by destruct (serve _ _ _) as [[? ?] ?].
Defined.


(** A second account on the local server that holds the one of the spec's
    message. *)
Lemma create_traveller_unique_emails_witness :
  NoDup
    (emails
       (travellers
          (@create_traveller local_env client "createTraveller" (VStr "r2")
             (VStr "Ann") (VStr "ann@x.com") (VStr "longenoughpw")
             (backend server_with_bob)).1)).
Proof.
  apply (@create_traveller_unique_emails local_env). compute_done.
Defined.

(** A name of three spaces on the fresh local server. *)
Lemma create_traveller_blank_witness :
  @create_traveller local_env client "createTraveller" (VStr "r1")
    (VStr "   ") (VStr "bob@x.com") (VStr "longenoughpw")
    (backend local_server) =
  (backend local_server,
   Returned (Some (@format_res_err local_env "createTraveller"
      "NameExceedsLimit"
      (VStr "Traveller name must be between 3 and 20 characters long.")
      (Some (VStr "r1")) false []))).
Proof.
  apply (proj1 (@create_traveller_blank local_env client "createTraveller"
                  (VStr "r1") (backend local_server) eq_refl)).
  by vm_compute.
Defined.

(** The password of [create_non_ascii] on the fresh local server. *)
Lemma create_traveller_non_ascii_witness :
  @create_traveller local_env client "createTraveller" (VStr "r1")
    (VStr "Bob") (VStr "bob@x.com")
    (VStr (String "p"%char (String "228"%char "ssword1")))
    (backend local_server) =
  ({| mdb := mdb (backend local_server);
      wss_accounts := wss_accounts (backend local_server);
      travellers := travellers (backend local_server);
      rng := {| tape := tape (rng (backend local_server));
                cursor := (cursor (rng (backend local_server)) + 15)%nat |} |},
   Raised "UnicodeEncodeError").
Proof.
  apply (@create_traveller_non_ascii local_env); by vm_compute.
Defined.

(** The success reply to the spec's message on the fresh local server. *)
Lemma create_traveller_replies_witness :
  let reply :=
    format_res "createTraveller" (VStr "r1")
      [("travellerId", VStr "dkryFMT07elszGN")] in
  env_originalEvent reply = "createTraveller"
  /\ env_error reply ∈
       [None; Some "AlreadyLoggedIn"; Some "NameExceedsLimit";
        Some "EmailInvalid"; Some "PasswordExceedsLimit"; Some "EmailInUse"]
  /\ (env_error reply <> Some "EmailInvalid" -> env_ref reply = VStr "r1")
  /\ (env_error reply = Some "EmailInvalid" -> env_ref reply = NO_REF)
  /\ (env_error reply = None ->
        exists id : string,
          env_extra reply = [("travellerId", VStr id)]
          /\ wss_accounts
               (@create_traveller local_env client "createTraveller"
                  (VStr "r1") (VStr "Bob") (VStr "bob@x.com")
                  (VStr "longenoughpw") (backend local_server)).1
             !! ip client = Some id).
Proof.
  apply (@create_traveller_replies local_env client "createTraveller"
           (VStr "r1") (VStr "Bob") (VStr "bob@x.com") (VStr "longenoughpw")
           (backend local_server)).
  by vm_compute.
Defined.

(** The count of travellers, asked with a stray field and no ref. *)
Lemma stub_handlers_witness :
  ended (@handle_event local_env client count_travellers local_server) =
    Return (Some (format_res "totalTravellers" (ref_of count_travellers)
                    [("totalTravellers", VInt 0)]))
  /\ after (@handle_event local_env client count_travellers local_server) =
     backend local_server.
Proof.
  apply (proj1 (@stub_handlers local_env client count_travellers local_server
                  "totalTravellers" eq_refl eq_refl ltac:(done)));
    by vm_compute.
Defined.
